(** * The morphing tree scene of [src/components/TreeScene.tsx]

    A shallow embedding of the scene's procedural layout generator, of its
    morph progress scheduler and of the per-frame interpolators, followed by
    the properties the specification states about them.

    JavaScript numbers are idealised as real numbers: rounding of IEEE
    doubles and of [Float32Array] storage is not modelled.  [Math.random]
    draws come from an explicit source that the generator threads through
    its calls in program order.  The fragment shader and the rendering
    layer around the scene (camera, lights, post-processing) are outside
    the model. *)

From Stdlib Require Import Reals Lra Lia ZArith List Ascii String.
From stdpp Require Import base list.
Local Open Scope R_scope.

(** ** JavaScript [Math] *)

Module JSMath.

Definition max (a b : R) : R := Rmax a b.
Definition min (a b : R) : R := Rmin a b.

(** [Math.pow] is only called with the exponent 3. *)
Definition pow (b : R) (e : nat) : R := b ^ e.

(** [Math.floor], as an integer. *)
Definition floor (a : R) : Z := Int_part a.

(** [Math.cbrt]: the real cube root, odd in its argument. *)
Definition cbrt (a : R) : R :=
  match Rlt_dec 0 a with
  | left _ => Rpower a (/ 3)
  | right _ =>
      match Rlt_dec a 0 with
      | left _ => - Rpower (- a) (/ 3)
      | right _ => 0
      end
  end.

End JSMath.

(** ** [THREE.MathUtils] and [THREE.Vector3] *)

Module MathUtils.

(** [lerp(x, y, t)] of three.js: [(1 - t) * x + t * y]. *)
Definition lerp (x y t : R) : R := (1 - t) * x + t * y.

(** [clamp(value, min, max)] of three.js:
    [Math.max(min, Math.min(max, value))]. *)
Definition clamp (value lo hi : R) : R := JSMath.max lo (JSMath.min hi value).

End MathUtils.

Module Vector3.

Record t : Type := mk { x : R; y : R; z : R }.

Definition zero : t := mk 0 0 0.

(** [v.lerpVectors(v1, v2, alpha)] stores
    [v1 + (v2 - v1) * alpha], componentwise. *)
Definition lerpVectors (v1 v2 : t) (alpha : R) : t :=
  mk (x v1 + (x v2 - x v1) * alpha)
     (y v1 + (y v2 - y v1) * alpha)
     (z v1 + (z v2 - z v1) * alpha).

(** [this.lerp(v, alpha)] stores [this + (v - this) * alpha]. *)
Definition lerp (this v : t) (alpha : R) : t :=
  mk (x this + (x v - x this) * alpha)
     (y this + (y v - y this) * alpha)
     (z this + (z v - z this) * alpha).

Definition distanceToSquared (a b : t) : R :=
  (x a - x b) * (x a - x b) + (y a - y b) * (y a - y b)
  + (z a - z b) * (z a - z b).

Definition distanceTo (a b : t) : R := sqrt (distanceToSquared a b).

End Vector3.

(** ** Random draws *)

(** The draws [Math.random] will return, in order. *)
Definition RandomSource : Type := nat -> R.

Definition Rand (A : Type) : Type := RandomSource -> A * RandomSource.

Definition ret {A : Type} (a : A) : Rand A := fun src => (a, src).

Definition bind {A B : Type} (m : Rand A) (k : A -> Rand B) : Rand B :=
  fun src => let (a, src') := m src in k a src'.

Notation "'let*' x ':=' m 'in' k" := (bind m (fun x => k))
  (at level 10, x name, m at level 100, k at level 200).

Definition Math_random : Rand R :=
  fun src => (src 0%nat, fun n => src (S n)).

(** Every draw lies in [[0, 1)], as [Math.random] promises. *)
Definition unit_draws (src : RandomSource) : Prop :=
  forall n : nat, 0 <= src n < 1.

(** ** Helper math: [randomInSphere] *)

Definition randomInSphere (radius biasY : R) : Rand Vector3.t :=
  let* u := Math_random in
  let* v := Math_random in
  let theta := 2 * PI * u in
  let phi := acos (2 * v - 1) in
  let* w := Math_random in
  let r := JSMath.cbrt w * radius in
  let sinPhi := sin phi in
  ret (Vector3.mk (r * sinPhi * cos theta)
                  (r * sinPhi * sin theta + biasY)
                  (r * cos phi)).

(** ** Data generation (the [useMemo] block of [MorphingTree]) *)

(** A [Float32Array] is a list of numbers of fixed length.  A store
    [a[i] = v] is [<[i := v]> a], which like the typed array ignores an
    index beyond the length.  Reads in the frame loops stay below the
    length; beyond it the model yields 0 where JavaScript yields
    [undefined]. *)
Abbreviation Float32Array := (list R).

Definition new_Float32Array (n : nat) : Float32Array := replicate n 0.

Definition get (a : Float32Array) (i : nat) : R := default 0 (a !! i).

Definition loop_range (n : nat) : list nat := seq 0 n.

(** [for (let i = 0; i < n; i++) body] without [break], over the random
    source. *)
Fixpoint forM {St : Type} (idx : list nat) (body : nat -> St -> Rand St)
    (s : St) : Rand St :=
  match idx with
  | [] => ret s
  | i :: rest => let* s' := body i s in forM rest body s'
  end.

(** The same loop when the body may [break]. *)
Inductive Step (St : Type) : Type :=
| Continue (s : St)
| Break (s : St).
Arguments Continue {St} s.
Arguments Break {St} s.

Fixpoint forBreak {St : Type} (idx : list nat)
    (body : nat -> St -> Rand (Step St)) (s : St) : Rand St :=
  match idx with
  | [] => ret s
  | j :: rest =>
      let* r := body j s in
      match r with
      | Continue s' => forBreak rest body s'
      | Break s' => ret s'
      end
  end.

(** *** 1. Foliage (points) *)

Module Layer.
Record t : Type := mk { y : R; r : R; h : R }.
End Layer.

Definition layers : list Layer.t :=
  [ Layer.mk (-1.0) 2.3 1.5;
    Layer.mk 0.2 1.9 1.5;
    Layer.mk 1.4 1.5 1.5;
    Layer.mk 2.5 1.1 1.2;
    Layer.mk 3.4 0.7 1.0 ].

Definition foliageCount : nat := (8 * 1000)%nat.

(** The four attribute arrays of the points geometry: [position] holds the
    scatter positions, [aTargetPos] the tree positions. *)
Module BufferGeometry.
Record t : Type := mk {
  position : list R;
  aTargetPos : list R;
  aRandom : list R;
  aSize : list R
}.
End BufferGeometry.

(** One iteration of the foliage loop; [layers[k]] is read with the first
    layer as default, which the draws in [[0, 1)] never reach. *)
Definition foliage_body (_ : nat) (acc : BufferGeometry.t)
  : Rand BufferGeometry.t :=
  let* sPos := randomInSphere 8 2 in
  let positions :=
    BufferGeometry.position acc
      ++ [Vector3.x sPos; Vector3.y sPos; Vector3.z sPos] in
  let* pick := Math_random in
  let layer :=
    nth (Z.to_nat (JSMath.floor (pick * INR (length layers)))) layers
        (Layer.mk (-1.0) 2.3 1.5) in
  let* hRatio := Math_random in
  let yOffset := (hRatio - 0.5) * Layer.h layer in
  let* coin := Math_random in
  let* rBias :=
    (if Rgt_dec coin 0.8
     then Math_random
     else let* d := Math_random in ret (0.9 + d * 0.1)) in
  let currentRadius := Layer.r layer * (1 - hRatio) * rBias in
  let* a := Math_random in
  let theta := a * PI * 2 in
  let targetPos :=
    BufferGeometry.aTargetPos acc
      ++ [cos theta * currentRadius;
          Layer.y layer + yOffset;
          sin theta * currentRadius] in
  let* rnd := Math_random in
  let* sz := Math_random in
  ret (BufferGeometry.mk positions targetPos
         (BufferGeometry.aRandom acc ++ [rnd])
         (BufferGeometry.aSize acc ++ [sz * 0.5 + 0.5])).

Definition generateFoliage : Rand BufferGeometry.t :=
  forM (loop_range foliageCount) foliage_body (BufferGeometry.mk [] [] [] []).

(** *** 2. Ornaments (spheres, light) *)

Definition sphereCount : nat := 120.

Module OrnamentData.
Record t : Type := mk {
  scatter : Float32Array;
  tree : Float32Array;
  count : nat
}.
End OrnamentData.

(** The variables the ornament loops update.  [written] is a ghost log of
    the buffer offsets stored to, most recent first; the program keeps no
    such log. *)
Module OrnamentLoop.
Record t : Type := mk {
  oScatter : Float32Array;
  oTree : Float32Array;
  oIdx : nat;
  written : list nat
}.
End OrnamentLoop.

Definition ring_count (i : nat) : nat := (10 + i * 4)%nat.

Definition ornament_body (i : nat) (j : nat) (st : OrnamentLoop.t)
  : Rand (Step OrnamentLoop.t) :=
  let yBase := -1.5 + INR i * 1.1 in
  let radiusBase := 2.0 - INR i * 0.4 in
  let count := ring_count i in
  let oIdx := OrnamentLoop.oIdx st in
  if (sphereCount <=? oIdx)%nat then ret (Break st)
  else
    let* sPos := randomInSphere 7 1 in
    let oScatter :=
      <[(oIdx * 3 + 2)%nat := Vector3.z sPos]>
        (<[(oIdx * 3 + 1)%nat := Vector3.y sPos]>
           (<[(oIdx * 3)%nat := Vector3.x sPos]> (OrnamentLoop.oScatter st))) in
    let angle := INR j / INR count * PI * 2 + INR i * 0.5 in
    let* jitter := Math_random in
    let oTree :=
      <[(oIdx * 3 + 2)%nat := sin angle * (radiusBase * 0.95)]>
        (<[(oIdx * 3 + 1)%nat := yBase - 0.1 + jitter * 0.3]>
           (<[(oIdx * 3)%nat := cos angle * (radiusBase * 0.95)]>
              (OrnamentLoop.oTree st))) in
    ret (Continue
           (OrnamentLoop.mk oScatter oTree (oIdx + 1)%nat
              ((oIdx * 3 + 2)%nat :: (oIdx * 3 + 1)%nat :: (oIdx * 3)%nat
                 :: OrnamentLoop.written st))).

Definition ornament_ring (i : nat) (st : OrnamentLoop.t)
  : Rand OrnamentLoop.t :=
  forBreak (loop_range (ring_count i)) (ornament_body i) st.

Definition ornament_loops : Rand OrnamentLoop.t :=
  forM (loop_range 5) ornament_ring
    (OrnamentLoop.mk (new_Float32Array (sphereCount * 3))
                     (new_Float32Array (sphereCount * 3)) 0 []).

Definition generateOrnaments : Rand OrnamentData.t :=
  let* st := ornament_loops in
  ret (OrnamentData.mk (OrnamentLoop.oScatter st) (OrnamentLoop.oTree st)
         (OrnamentLoop.oIdx st)).

(** *** 3. Gifts (boxes, heavy) *)

Definition giftCount : nat := 25.

Module GiftData.
Record t : Type := mk {
  scatter : Float32Array;
  tree : Float32Array;
  rot : Float32Array;
  count : nat
}.
End GiftData.

Module GiftLoop.
Record t : Type := mk {
  gScatter : Float32Array;
  gTree : Float32Array;
  gRotation : Float32Array
}.
End GiftLoop.

Definition gift_theta (i : nat) : R := INR i / INR giftCount * PI * 10.
Definition gift_y (i : nat) : R := -1.5 + INR i / INR giftCount * 4.5.
Definition gift_r (i : nat) : R := 2.4 * (1 - INR i / INR giftCount * 0.8).

Definition gift_body (i : nat) (st : GiftLoop.t) : Rand GiftLoop.t :=
  let* sPos := randomInSphere 5 (-1) in
  let gScatter :=
    <[(i * 3 + 2)%nat := Vector3.z sPos]>
      (<[(i * 3 + 1)%nat := Vector3.y sPos]>
         (<[(i * 3)%nat := Vector3.x sPos]> (GiftLoop.gScatter st))) in
  let theta := gift_theta i in
  let y := gift_y i in
  let r := gift_r i in
  let gTree :=
    <[(i * 3 + 2)%nat := sin theta * r]>
      (<[(i * 3 + 1)%nat := y]>
         (<[(i * 3)%nat := cos theta * r]> (GiftLoop.gTree st))) in
  let* rx := Math_random in
  let* ry := Math_random in
  let* rz := Math_random in
  let gRotation :=
    <[(i * 3 + 2)%nat := rz * PI]>
      (<[(i * 3 + 1)%nat := ry * PI]>
         (<[(i * 3)%nat := rx * PI]> (GiftLoop.gRotation st))) in
  ret (GiftLoop.mk gScatter gTree gRotation).

Definition gift_loop : Rand GiftLoop.t :=
  forM (loop_range giftCount) gift_body
    (GiftLoop.mk (new_Float32Array (giftCount * 3))
                 (new_Float32Array (giftCount * 3))
                 (new_Float32Array (giftCount * 3))).

Definition generateGifts : Rand GiftData.t :=
  let* st := gift_loop in
  ret (GiftData.mk (GiftLoop.gScatter st) (GiftLoop.gTree st)
         (GiftLoop.gRotation st) giftCount).

(** The whole [useMemo] callback. *)
Module SceneData.
Record t : Type := mk {
  pointsGeometry : BufferGeometry.t;
  ornamentData : OrnamentData.t;
  giftData : GiftData.t
}.
End SceneData.

Definition generate : Rand SceneData.t :=
  let* geometry := generateFoliage in
  let* ornaments := generateOrnaments in
  let* gifts := generateGifts in
  ret (SceneData.mk geometry ornaments gifts).

(** ** Configuration ([types.ts]) *)

Inductive TreeMorphState : Type :=
| SCATTERED
| TREE_SHAPE.

(** [a === b] on the enumeration. *)
Definition morph_eqb (a b : TreeMorphState) : bool :=
  match a, b with
  | SCATTERED, SCATTERED => true
  | TREE_SHAPE, TREE_SHAPE => true
  | _, _ => false
  end.

Module TreeConfig.
Record t : Type := mk {
  rotationSpeed : R;
  bloomIntensity : R;
  lightsColor : string;
  morphState : TreeMorphState
}.
End TreeConfig.

(** ** Scene objects *)

Module Euler.
Record t : Type := mk { x : R; y : R; z : R }.
End Euler.

(** A [Matrix4] is kept as the position, orientation and scale that
    [Object3D.updateMatrix] composes it from. *)
Module Matrix4.
Record t : Type := compose {
  position : Vector3.t;
  rotation : Euler.t;
  scale : Vector3.t
}.
Definition identity : t :=
  compose Vector3.zero (Euler.mk 0 0 0) (Vector3.mk 1 1 1).
End Matrix4.

Module Object3D.
Record t : Type := mk {
  position : Vector3.t;
  rotation : Euler.t;
  scale : Vector3.t;
  matrix : Matrix4.t
}.
(** [new THREE.Object3D()]. *)
Definition new : t :=
  mk Vector3.zero (Euler.mk 0 0 0) (Vector3.mk 1 1 1) Matrix4.identity.
Definition set_position (v : Vector3.t) (o : t) : t :=
  mk v (rotation o) (scale o) (matrix o).
Definition set_rotation (e : Euler.t) (o : t) : t :=
  mk (position o) e (scale o) (matrix o).
Definition setScalar (k : R) (o : t) : t :=
  mk (position o) (rotation o) (Vector3.mk k k k) (matrix o).
Definition updateMatrix (o : t) : t :=
  mk (position o) (rotation o) (scale o)
     (Matrix4.compose (position o) (rotation o) (scale o)).
End Object3D.

Module InstancedMesh.
Record t : Type := mk {
  instanceMatrix : list Matrix4.t;
  needsUpdate : bool
}.
(** An instanced mesh of [n] instances, as mounted. *)
Definition new (n : nat) : t := mk (replicate n Matrix4.identity) false.
Definition setMatrixAt (i : nat) (m : Matrix4.t) (mesh : t) : t :=
  mk (<[i := m]> (instanceMatrix mesh)) (needsUpdate mesh).
Definition flag (mesh : t) : t := mk (instanceMatrix mesh) true.
End InstancedMesh.

Module FoliageMaterial.
Record t : Type := mk { uTime : R; uProgress : R }.
End FoliageMaterial.

(** The group holding the whole assembly; only its yaw is used. *)
Module Group.
Record t : Type := mk { rotation_y : R }.
End Group.

(** ** The state of [MorphingTree]

    The refs ([None] while [ref.current] is null), the memoised data and
    the four scratch objects that the frame callback reuses. *)
Module Store.
Record t : Type := mk {
  progress : R;
  groupRef : option Group.t;
  foliageMatRef : option FoliageMaterial.t;
  ornamentRef : option InstancedMesh.t;
  giftsRef : option InstancedMesh.t;
  data : SceneData.t;
  dummy : Object3D.t;
  vec3Scatter : Vector3.t;
  vec3Tree : Vector3.t;
  currentVec : Vector3.t
}.

Definition set_progress (v : R) (s : t) : t :=
  mk v (groupRef s) (foliageMatRef s) (ornamentRef s) (giftsRef s)
     (data s) (dummy s) (vec3Scatter s) (vec3Tree s) (currentVec s).
Definition set_groupRef (v : option Group.t) (s : t) : t :=
  mk (progress s) v (foliageMatRef s) (ornamentRef s) (giftsRef s)
     (data s) (dummy s) (vec3Scatter s) (vec3Tree s) (currentVec s).
Definition set_foliageMatRef (v : option FoliageMaterial.t) (s : t) : t :=
  mk (progress s) (groupRef s) v (ornamentRef s) (giftsRef s)
     (data s) (dummy s) (vec3Scatter s) (vec3Tree s) (currentVec s).
Definition set_ornamentRef (v : option InstancedMesh.t) (s : t) : t :=
  mk (progress s) (groupRef s) (foliageMatRef s) v (giftsRef s)
     (data s) (dummy s) (vec3Scatter s) (vec3Tree s) (currentVec s).
Definition set_giftsRef (v : option InstancedMesh.t) (s : t) : t :=
  mk (progress s) (groupRef s) (foliageMatRef s) (ornamentRef s) v
     (data s) (dummy s) (vec3Scatter s) (vec3Tree s) (currentVec s).
Definition set_dummy (v : Object3D.t) (s : t) : t :=
  mk (progress s) (groupRef s) (foliageMatRef s) (ornamentRef s)
     (giftsRef s) (data s) v (vec3Scatter s) (vec3Tree s) (currentVec s).
Definition set_vec3Scatter (v : Vector3.t) (s : t) : t :=
  mk (progress s) (groupRef s) (foliageMatRef s) (ornamentRef s)
     (giftsRef s) (data s) (dummy s) v (vec3Tree s) (currentVec s).
Definition set_vec3Tree (v : Vector3.t) (s : t) : t :=
  mk (progress s) (groupRef s) (foliageMatRef s) (ornamentRef s)
     (giftsRef s) (data s) (dummy s) (vec3Scatter s) v (currentVec s).
Definition set_currentVec (v : Vector3.t) (s : t) : t :=
  mk (progress s) (groupRef s) (foliageMatRef s) (ornamentRef s)
     (giftsRef s) (data s) (dummy s) (vec3Scatter s) (vec3Tree s) v.

(** The component once mounted on the generated data [d]: [progress]
    starts at 1 ([useRef(1)]) and every ref is set. *)
Definition mount (d : SceneData.t) : t :=
  mk 1 (Some (Group.mk 0)) (Some (FoliageMaterial.mk 0 0))
     (Some (InstancedMesh.new (OrnamentData.count (SceneData.ornamentData d))))
     (Some (InstancedMesh.new (GiftData.count (SceneData.giftData d))))
     d Object3D.new Vector3.zero Vector3.zero Vector3.zero.
End Store.

(** What the render loop hands to the callback: the configuration captured
    by the current render, [state.clock.elapsedTime] and [delta]. *)
Module Frame.
Record t : Type := mk {
  config : TreeConfig.t;
  elapsedTime : R;
  delta : R
}.
End Frame.

(** [for (let i = 0; i < n; i++) body] over the store. *)
Definition for_each (n : nat) (body : nat -> Store.t -> Store.t)
    (s : Store.t) : Store.t :=
  fold_left (fun acc i => body i acc) (loop_range n) s.

(** ** The frame callback of [MorphingTree] *)

Definition speedMult (m : TreeMorphState) : R :=
  if morph_eqb m SCATTERED then 0.2 else 1.0.

Definition targetProgress (m : TreeMorphState) : R :=
  if morph_eqb m TREE_SHAPE then 1 else 0.

(** Easing for the CPU animations. *)
Definition smoothT (t : R) : R :=
  if Rlt_dec t 0.5 then 4 * t * t * t
  else 1 - JSMath.pow (-2 * t + 2) 3 / 2.

Definition heavyT (smooth : R) : R := JSMath.max 0 (smooth - 0.1).

Definition effectiveT (smooth : R) : R :=
  MathUtils.clamp (heavyT smooth * 1.1) 0 1.

Definition rotate_group (f : Frame.t) (s : Store.t) : Store.t :=
  match Store.groupRef s with
  | Some g =>
      let cfg := Frame.config f in
      Store.set_groupRef
        (Some (Group.mk
                 (Group.rotation_y g
                  + Frame.delta f * TreeConfig.rotationSpeed cfg
                    * speedMult (TreeConfig.morphState cfg)))) s
  | None => s
  end.

Definition update_progress (f : Frame.t) (s : Store.t) : Store.t :=
  Store.set_progress
    (MathUtils.lerp (Store.progress s)
       (targetProgress (TreeConfig.morphState (Frame.config f)))
       (Frame.delta f * 2.0)) s.

Definition update_foliage (f : Frame.t) (s : Store.t) : Store.t :=
  match Store.foliageMatRef s with
  | Some _ =>
      Store.set_foliageMatRef
        (Some (FoliageMaterial.mk (Frame.elapsedTime f) (Store.progress s))) s
  | None => s
  end.

Definition read3 (a : Float32Array) (i : nat) : Vector3.t :=
  Vector3.mk (get a (i * 3)) (get a (i * 3 + 1)) (get a (i * 3 + 2)).

Definition add_y (dy : R) (v : Vector3.t) : Vector3.t :=
  Vector3.mk (Vector3.x v) (Vector3.y v + dy) (Vector3.z v).

(** One iteration of the ornament loop; [t] and [smooth] are the frame's
    [t] and [smoothT]. *)
Definition ornament_frame (elapsed t smooth : R) (i : nat) (s : Store.t)
  : Store.t :=
  let od := SceneData.ornamentData (Store.data s) in
  let s := Store.set_vec3Scatter (read3 (OrnamentData.scatter od) i) s in
  let s := Store.set_vec3Tree (read3 (OrnamentData.tree od) i) s in
  let s :=
    Store.set_currentVec
      (Vector3.lerpVectors (Store.vec3Scatter s) (Store.vec3Tree s) smooth) s in
  (* Float effect (fast) *)
  let s :=
    if Rlt_dec t 0.99
    then Store.set_currentVec
           (add_y (sin (elapsed * 2.0 + INR i) * 0.1 * (1 - smooth))
                  (Store.currentVec s)) s
    else s in
  let s :=
    Store.set_dummy
      (Object3D.updateMatrix
         (Object3D.setScalar 1
            (Object3D.set_position (Store.currentVec s) (Store.dummy s)))) s in
  match Store.ornamentRef s with
  | Some mesh =>
      Store.set_ornamentRef
        (Some (InstancedMesh.setMatrixAt i (Object3D.matrix (Store.dummy s))
                 mesh)) s
  | None => s
  end.

Definition update_ornaments (elapsed t smooth : R) (s : Store.t) : Store.t :=
  match Store.ornamentRef s with
  | Some _ =>
      let s :=
        for_each (OrnamentData.count (SceneData.ornamentData (Store.data s)))
          (ornament_frame elapsed t smooth) s in
      Store.set_ornamentRef
        (option_map InstancedMesh.flag (Store.ornamentRef s)) s
  | None => s
  end.

(** One iteration of the gift loop. *)
Definition gift_frame (elapsed t smooth : R) (i : nat) (s : Store.t)
  : Store.t :=
  let gd := SceneData.giftData (Store.data s) in
  let s := Store.set_vec3Scatter (read3 (GiftData.scatter gd) i) s in
  let s := Store.set_vec3Tree (read3 (GiftData.tree gd) i) s in
  (* Heavy objects lag behind slightly in transition *)
  let effective := effectiveT smooth in
  let s :=
    Store.set_currentVec
      (Vector3.lerpVectors (Store.vec3Scatter s) (Store.vec3Tree s) effective)
      s in
  let s :=
    if Rlt_dec t 0.99
    then
      (* Float effect (slow), slow rotation while floating *)
      let s :=
        Store.set_currentVec
          (add_y (sin (elapsed * 0.5 + INR i) * 0.05 * (1 - effective))
                 (Store.currentVec s)) s in
      Store.set_dummy
        (Object3D.set_rotation
           (Euler.mk (get (GiftData.rot gd) (i * 3) + elapsed * 0.1)
                     (get (GiftData.rot gd) (i * 3 + 1) + elapsed * 0.1)
                     (get (GiftData.rot gd) (i * 3 + 2)))
           (Store.dummy s)) s
    else
      (* Align perfectly when in tree *)
      Store.set_dummy
        (Object3D.set_rotation (Euler.mk 0 0 0) (Store.dummy s)) s in
  let s :=
    Store.set_dummy
      (Object3D.updateMatrix
         (Object3D.setScalar 0.25
            (Object3D.set_position (Store.currentVec s) (Store.dummy s)))) s in
  match Store.giftsRef s with
  | Some mesh =>
      Store.set_giftsRef
        (Some (InstancedMesh.setMatrixAt i (Object3D.matrix (Store.dummy s))
                 mesh)) s
  | None => s
  end.

Definition update_gifts (elapsed t smooth : R) (s : Store.t) : Store.t :=
  match Store.giftsRef s with
  | Some _ =>
      let s :=
        for_each (GiftData.count (SceneData.giftData (Store.data s)))
          (gift_frame elapsed t smooth) s in
      Store.set_giftsRef (option_map InstancedMesh.flag (Store.giftsRef s)) s
  | None => s
  end.

Definition useFrame (f : Frame.t) (s : Store.t) : Store.t :=
  let s := rotate_group f s in
  let s := update_progress f s in
  let t := Store.progress s in
  let smooth := smoothT t in
  let s := update_foliage f s in
  let s := update_ornaments (Frame.elapsedTime f) t smooth s in
  update_gifts (Frame.elapsedTime f) t smooth s.

(** The render loop: one callback per frame, in order. *)
Definition run_frames (frames : list Frame.t) (s : Store.t) : Store.t :=
  fold_left (fun acc f => useFrame f acc) frames s.

(** ** Concrete inputs *)

(** A source whose every draw is 1/2. *)
Definition half_draws : RandomSource := fun _ => 1 / 2.

(** The configuration [App.tsx] starts with, and the same after the morph
    toggle. *)
Definition tree_config : TreeConfig.t :=
  TreeConfig.mk 0.3 1.5 "#FFFAEE" TREE_SHAPE.

Definition scattered_config : TreeConfig.t :=
  TreeConfig.mk 0.3 1.5 "#FFFAEE" SCATTERED.

(** The scene mounted on the data generated from [half_draws]. *)
Definition mounted : Store.t := Store.mount (fst (generate half_draws)).

(** ** Loop invariants and the specification's spiral *)

(** The ghost log lists every offset below three times the fill index,
    and the fill index stays within the cap. *)
Definition ornament_inv (st : OrnamentLoop.t) : Prop :=
  OrnamentLoop.written st = rev (seq 0 (OrnamentLoop.oIdx st * 3))
  /\ (OrnamentLoop.oIdx st <= sphereCount)%nat
  /\ length (OrnamentLoop.oScatter st) = (sphereCount * 3)%nat
  /\ length (OrnamentLoop.oTree st) = (sphereCount * 3)%nat.

(** The intended element count of the rings before ring [i]. *)
Definition rings_before (i : nat) : nat :=
  list_sum (map ring_count (loop_range i)).

(** The spiral the specification describes, with [turns] full turns of
    azimuth across the index range, the height rising linearly from -1.5
    over a span of 4.5 and the radius shrinking linearly from 2.4 by the
    factor 0.8. *)
Definition spiral_point (turns : R) (i : nat) : Vector3.t :=
  let theta := INR i / INR giftCount * (turns * (2 * PI)) in
  let y := -1.5 + INR i / INR giftCount * 4.5 in
  let r := 2.4 * (1 - INR i / INR giftCount * 0.8) in
  Vector3.mk (cos theta * r) y (sin theta * r).

(** After [i] iterations the first [i] triples of [gTree] are final. *)
Definition gift_inv (i : nat) (st : GiftLoop.t) : Prop :=
  length (GiftLoop.gTree st) = (giftCount * 3)%nat
  /\ forall k : nat,
       (k < i)%nat ->
       GiftLoop.gTree st !! (k * 3)%nat = Some (cos (gift_theta k) * gift_r k)
       /\ GiftLoop.gTree st !! (k * 3 + 1)%nat = Some (gift_y k)
       /\ GiftLoop.gTree st !! (k * 3 + 2)%nat
          = Some (sin (gift_theta k) * gift_r k).

Definition zero_rotation (m : Matrix4.t) : Prop :=
  Matrix4.rotation m = Euler.mk 0 0 0.

(** After [k] iterations of the gift loop at [t >= 0.99], the first [k]
    instance matrices carry the zero orientation. *)
Definition gifts_settled (s0 : Store.t) (mesh0 : InstancedMesh.t) (k : nat)
    (s : Store.t) : Prop :=
  Store.data s = Store.data s0
  /\ exists mesh : InstancedMesh.t,
       Store.giftsRef s = Some mesh
       /\ length (InstancedMesh.instanceMatrix mesh)
          = length (InstancedMesh.instanceMatrix mesh0)
       /\ forall i : nat,
            (i < k)%nat ->
            (i < length (InstancedMesh.instanceMatrix mesh0))%nat ->
            exists m : Matrix4.t,
              InstancedMesh.instanceMatrix mesh !! i = Some m
              /\ zero_rotation m.

(** ** Proof automation *)

(** Unfolds one step of the callback and splits on its guards. *)
Ltac frame_step :=
  intros;
  unfold ornament_frame, gift_frame, rotate_group, update_progress,
    update_foliage;
  cbv zeta;
  repeat match goal with
         | |- context [match ?x with _ => _ end] => destruct x
         end;
  reflexivity.

(** ** Summaries of a run of frames *)

(** The factor by which a run of frames scales the distance between
    progress and a target that stays fixed. *)
Definition decay (frames : list Frame.t) : R :=
  fold_right (fun f acc => (1 - Frame.delta f * 2.0) * acc) 1 frames.

(** The yaw a run of frames adds to the group. *)
Definition yaw_added (frames : list Frame.t) : R :=
  fold_right
    (fun f acc =>
       Frame.delta f * TreeConfig.rotationSpeed (Frame.config f)
       * speedMult (TreeConfig.morphState (Frame.config f)) + acc)
    0 frames.

(** ** Closed forms of the instance passes *)

(** Where the ornament pass puts ornament [i]. *)
Definition ornament_position (d : SceneData.t) (elapsed t smooth : R)
    (i : nat) : Vector3.t :=
  let od := SceneData.ornamentData d in
  let base :=
    Vector3.lerpVectors (read3 (OrnamentData.scatter od) i)
                        (read3 (OrnamentData.tree od) i) smooth in
  if Rlt_dec t 0.99
  then add_y (sin (elapsed * 2.0 + INR i) * 0.1 * (1 - smooth)) base
  else base.

(** Where the gift pass puts gift [i], and how it turns it. *)
Definition gift_position (d : SceneData.t) (elapsed t smooth : R)
    (i : nat) : Vector3.t :=
  let gd := SceneData.giftData d in
  let base :=
    Vector3.lerpVectors (read3 (GiftData.scatter gd) i)
                        (read3 (GiftData.tree gd) i) (effectiveT smooth) in
  if Rlt_dec t 0.99
  then add_y (sin (elapsed * 0.5 + INR i) * 0.05 * (1 - effectiveT smooth))
             base
  else base.

Definition gift_rotation (d : SceneData.t) (elapsed t : R) (i : nat)
  : Euler.t :=
  let gd := SceneData.giftData d in
  if Rlt_dec t 0.99
  then Euler.mk (get (GiftData.rot gd) (i * 3) + elapsed * 0.1)
                (get (GiftData.rot gd) (i * 3 + 1) + elapsed * 0.1)
                (get (GiftData.rot gd) (i * 3 + 2))
  else Euler.mk 0 0 0.

(** After [k] iterations of an instance pass over the mesh behind [ref],
    the first [k] matrices are the [M i] and the rest are as before. *)
Definition pass_inv (ref : Store.t -> option InstancedMesh.t)
    (M : nat -> Matrix4.t) (s0 : Store.t) (mesh0 : InstancedMesh.t)
    (k : nat) (s : Store.t) : Prop :=
  Store.data s = Store.data s0
  /\ exists mesh : InstancedMesh.t,
       ref s = Some mesh
       /\ InstancedMesh.needsUpdate mesh = InstancedMesh.needsUpdate mesh0
       /\ length (InstancedMesh.instanceMatrix mesh)
          = length (InstancedMesh.instanceMatrix mesh0)
       /\ (forall i : nat,
             (i < k)%nat ->
             (i < length (InstancedMesh.instanceMatrix mesh0))%nat ->
             InstancedMesh.instanceMatrix mesh !! i = Some (M i))
       /\ (forall i : nat,
             (k <= i)%nat ->
             InstancedMesh.instanceMatrix mesh !! i
             = InstancedMesh.instanceMatrix mesh0 !! i).

(** The store as the two instance passes find it. *)
Definition before_instances (f : Frame.t) (s : Store.t) : Store.t :=
  update_foliage f (update_progress f (rotate_group f s)).

(** ** Reasoning about draws *)

(** From every source that satisfies [P], the computation [m] returns a
    value that satisfies [post] and leaves a source that satisfies [P]. *)
Definition yields {A : Type} (P : RandomSource -> Prop) (m : Rand A)
    (post : A -> Prop) : Prop :=
  forall src : RandomSource,
    P src -> post (fst (m src)) /\ P (snd (m src)).

Definition any_draws (src : RandomSource) : Prop := True.

(** The three numbers of element [k] of a buffer, as far as they are
    there. *)
Definition triple_at (a : Float32Array) (k : nat) (p : Vector3.t) : Prop :=
  a !! (k * 3)%nat = Some (Vector3.x p)
  /\ a !! (k * 3 + 1)%nat = Some (Vector3.y p)
  /\ a !! (k * 3 + 2)%nat = Some (Vector3.z p).

(** [a[i*3] = x; a[i*3+1] = y; a[i*3+2] = z]. *)
Definition write3 (a : Float32Array) (i : nat) (p : Vector3.t)
  : Float32Array :=
  <[(i * 3 + 2)%nat := Vector3.z p]>
    (<[(i * 3 + 1)%nat := Vector3.y p]>
       (<[(i * 3)%nat := Vector3.x p]> a)).

(** After [i] iterations of the gift loop under draws in [[0, 1)], the
    first [i] scatter points lie in the ball of radius 5 about
    [(0, -1, 0)] and the first [i] angle triples lie in [[0, PI)]. *)
Definition gift_seeded (i : nat) (st : GiftLoop.t) : Prop :=
  length (GiftLoop.gScatter st) = (giftCount * 3)%nat
  /\ length (GiftLoop.gRotation st) = (giftCount * 3)%nat
  /\ forall k : nat,
       (k < i)%nat ->
       exists p q : Vector3.t,
         triple_at (GiftLoop.gScatter st) k p
         /\ Vector3.distanceTo p (Vector3.mk 0 (-1) 0) <= 5
         /\ triple_at (GiftLoop.gRotation st) k q
         /\ 0 <= Vector3.x q < PI
         /\ 0 <= Vector3.y q < PI
         /\ 0 <= Vector3.z q < PI.

(** Element [j] of ring [ring] is in place: its scatter point lies in the
    ball of radius 7 about [(0, 1, 0)], and its tree point lies on the
    ring's circle at the azimuth [j / count] of a turn plus the ring's
    phase, within the ring's height band. *)
Definition ornament_placed (st : OrnamentLoop.t) (ring j : nat) : Prop :=
  exists p q : Vector3.t,
    triple_at (OrnamentLoop.oScatter st) (rings_before ring + j) p
    /\ Vector3.distanceTo p (Vector3.mk 0 1 0) <= 7
    /\ triple_at (OrnamentLoop.oTree st) (rings_before ring + j) q
    /\ Vector3.x q
       = cos (INR j / INR (ring_count ring) * PI * 2 + INR ring * 0.5)
         * ((2.0 - INR ring * 0.4) * 0.95)
    /\ Vector3.z q
       = sin (INR j / INR (ring_count ring) * PI * 2 + INR ring * 0.5)
         * ((2.0 - INR ring * 0.4) * 0.95)
    /\ -1.5 + INR ring * 1.1 - 0.1 <= Vector3.y q
       < -1.5 + INR ring * 1.1 + 0.2.

(** The rings before [i] and the first [j] elements of ring [i] are in
    place and the fill index stands right behind them. *)
Definition ornament_filled (i j : nat) (st : OrnamentLoop.t) : Prop :=
  OrnamentLoop.oIdx st = (rings_before i + j)%nat
  /\ length (OrnamentLoop.oScatter st) = (sphereCount * 3)%nat
  /\ length (OrnamentLoop.oTree st) = (sphereCount * 3)%nat
  /\ (forall ring j' : nat,
        (ring < i)%nat -> (j' < ring_count ring)%nat ->
        ornament_placed st ring j')
  /\ (forall j' : nat, (j' < j)%nat -> ornament_placed st i j').

(** Nothing has been stored at or beyond the fill index. *)
Definition ornament_tail_blank (st : OrnamentLoop.t) : Prop :=
  length (OrnamentLoop.oScatter st) = (sphereCount * 3)%nat
  /\ length (OrnamentLoop.oTree st) = (sphereCount * 3)%nat
  /\ forall k : nat,
       (OrnamentLoop.oIdx st * 3 <= k < sphereCount * 3)%nat ->
       OrnamentLoop.oScatter st !! k = Some 0
       /\ OrnamentLoop.oTree st !! k = Some 0.

(** The attribute arrays hold [i] points. *)
Definition foliage_sized (i : nat) (g : BufferGeometry.t) : Prop :=
  length (BufferGeometry.position g) = (i * 3)%nat
  /\ length (BufferGeometry.aTargetPos g) = (i * 3)%nat
  /\ length (BufferGeometry.aRandom g) = i
  /\ length (BufferGeometry.aSize g) = i.

(** Point [k] of the foliage is in place: its scatter point lies in the
    ball of radius 8 about [(0, 2, 0)], its tree point lies inside the cone
    of one of the layers, at the height ratio [hRatio] of that layer, and
    its two seeds lie in their ranges. *)
Definition foliage_placed (g : BufferGeometry.t) (k : nat) : Prop :=
  exists (p q : Vector3.t) (layer : Layer.t) (hRatio rnd sz : R),
    triple_at (BufferGeometry.position g) k p
    /\ Vector3.distanceTo p (Vector3.mk 0 2 0) <= 8
    /\ triple_at (BufferGeometry.aTargetPos g) k q
    /\ In layer layers
    /\ 0 <= hRatio < 1
    /\ Vector3.y q = Layer.y layer + (hRatio - 0.5) * Layer.h layer
    /\ Vector3.x q * Vector3.x q + Vector3.z q * Vector3.z q
       <= (Layer.r layer * (1 - hRatio)) * (Layer.r layer * (1 - hRatio))
    /\ BufferGeometry.aRandom g !! k = Some rnd
    /\ 0 <= rnd < 1
    /\ BufferGeometry.aSize g !! k = Some sz
    /\ 0.5 <= sz < 1.

Definition foliage_filled (i : nat) (g : BufferGeometry.t) : Prop :=
  foliage_sized i g /\ forall k : nat, (k < i)%nat -> foliage_placed g k.

(** ** The star topper ([StarTopper]) *)

Module StarTopper.

(** The group behind [ref]: its position and its yaw. *)
Record Star : Type := mkStar { position : Vector3.t; rotation_y : R }.

(** [ref] ([None] while [ref.current] is null) and [currentPos]. *)
Record t : Type := mk { ref : option Star; currentPos : Vector3.t }.

Definition treePos : Vector3.t := Vector3.mk 0 4.2 0.
Definition scatterPos : Vector3.t := Vector3.mk 0 7 0.

(** The component once mounted: the group sits at [[0, 4.2, 0]]. *)
Definition mount : t :=
  mk (Some (mkStar (Vector3.mk 0 4.2 0) 0)) (Vector3.mk 0 4.2 0).

Definition useFrame (morphState : TreeMorphState) (delta : R) (s : t) : t :=
  match ref s with
  | None => s
  | Some star =>
      let target :=
        if morph_eqb morphState TREE_SHAPE then treePos else scatterPos in
      (* Heavy star moves slower *)
      let cur := Vector3.lerp (currentPos s) target (delta * 1.0) in
      mk (Some (mkStar cur (rotation_y star + delta * 0.5))) cur
  end.

(** The star's callback over a run of frames. *)
Definition run_frames (frames : list Frame.t) (s : t) : t :=
  fold_left
    (fun acc f =>
       useFrame (TreeConfig.morphState (Frame.config f)) (Frame.delta f) acc)
    frames s.

(** The factor by which a run of frames scales the distance between the
    star and a target that stays fixed. *)
Definition decay (frames : list Frame.t) : R :=
  fold_right (fun f acc => (1 - Frame.delta f * 1.0) * acc) 1 frames.

End StarTopper.

(** ** The wish service ([services/geminiService.ts]) *)

Module WishState.
Record t : Type := mk {
  text : string;
  loading : bool;
  error : option string
}.
End WishState.

(** What awaiting [ai.models.generateContent] does: it resolves to a
    response whose [text] may be undefined, or it throws. *)
Inductive Generated : Type :=
| Response (text : option string)
| Throws.

(** How an async function settles. *)
Inductive Settled (A : Type) : Type :=
| Fulfilled (a : A)
| Rejects.
Arguments Fulfilled {A} a.
Arguments Rejects {A}.

(** [value || fallback] on a string that may be undefined: the empty
    string is falsy. *)
Definition or_else (value : option string) (fallback : string) : string :=
  match value with
  | Some s => if String.eqb s EmptyString then fallback else s
  | None => fallback
  end.

Definition quote : string := String "034"%char EmptyString.

Definition prompt (recipient : string) : string :=
  String.append
    "Write a very short, sophisticated, and luxurious Christmas wish for a high-end brand client named "
    (String.append quote
       (String.append recipient
          (String.append quote
             ". 
    Tone: Elegant, opulent, cinematic, warm but majestic. 
    Max length: 25 words. 
    Keywords to reflect: Gold, Emerald, Light, Timeless."))).

(** The service call is a parameter; the model name and the temperature of
    the request are fixed and left out. *)
Definition generateLuxuryWish (generateContent : string -> Generated)
    (recipient : string) : Settled string :=
  match generateContent (prompt recipient) with
  | Response text => Fulfilled (or_else text "Season's Greetings from Arix.")
  | Throws =>
      Fulfilled
        "Wishing you a season of timeless elegance and golden moments."%string
  end.

(** ** The overlay ([components/Overlay.tsx]) *)

Module Overlay.

Definition toggleMorph (prev : TreeConfig.t) : TreeConfig.t :=
  TreeConfig.mk (TreeConfig.rotationSpeed prev)
    (TreeConfig.bloomIntensity prev) (TreeConfig.lightsColor prev)
    (if morph_eqb (TreeConfig.morphState prev) TREE_SHAPE
     then SCATTERED else TREE_SHAPE).

(** The two sliders; [value] is the parsed [e.target.value]. *)
Definition onRotationChange (config : TreeConfig.t) (value : R)
  : TreeConfig.t :=
  TreeConfig.mk value (TreeConfig.bloomIntensity config)
    (TreeConfig.lightsColor config) (TreeConfig.morphState config).

Definition onGlowChange (config : TreeConfig.t) (value : R) : TreeConfig.t :=
  TreeConfig.mk (TreeConfig.rotationSpeed config) value
    (TreeConfig.lightsColor config) (TreeConfig.morphState config).

(** [handleGenerate]: the state set before the call and the state set
    once the call has settled. *)
Definition handleGenerate (generateContent : string -> Generated)
    (userName : string) (prev : WishState.t) : WishState.t * WishState.t :=
  (WishState.mk (WishState.text prev) true None,
   match generateLuxuryWish generateContent
           (or_else (Some userName) "Valued Guest") with
   | Fulfilled text => WishState.mk text false None
   | Rejects =>
       WishState.mk EmptyString false (Some "The spirits are quiet..."%string)
   end).

(** The Close button. *)
Definition close (wish : WishState.t) : WishState.t :=
  WishState.mk EmptyString (WishState.loading wish) (WishState.error wish).

(** What the wish card shows. *)
Inductive Card : Type :=
| Consulting
| Wish (text : string)
| NameForm.

Definition card (wish : WishState.t) : Card :=
  if WishState.loading wish then Consulting
  else if String.eqb (WishState.text wish) EmptyString then NameForm
  else Wish (WishState.text wish).

End Overlay.

(** ** The foliage shaders ([FoliageMaterial]) *)

Module FoliageShader.

(** GLSL [pow(x, y)]: the result is undefined ([None]) for [x < 0], and
    for [x = 0] with [y <= 0]. *)
Definition pow (x y : R) : option R :=
  if Rlt_dec x 0 then None
  else if Rlt_dec 0 x then Some (Rpower x y)
  else if Rle_dec y 0 then None else Some 0.

(** Cubic ease out function for smoother transition. *)
Definition easeOutCubic (x : R) : option R :=
  option_map (fun p => 1.0 - p) (pow (1.0 - x) 3.0).

(** GLSL [mix(x, y, a)] on vectors: [x * (1 - a) + y * a]. *)
Definition mix (a b : Vector3.t) (t : R) : Vector3.t :=
  Vector3.mk (Vector3.x a * (1 - t) + Vector3.x b * t)
             (Vector3.y a * (1 - t) + Vector3.y b * t)
             (Vector3.z a * (1 - t) + Vector3.z b * t).

(** The attributes of one vertex; the geometry sets no [normal], which is
    whatever the pipeline supplies. *)
Record Vertex : Type := mkVertex {
  position : Vector3.t;
  aTargetPos : Vector3.t;
  normal : Vector3.t;
  aRandom : R;
  aSize : R
}.

(** What the vertex stage hands on; [sizeScale] is the last factor of
    [gl_PointSize]. *)
Record Varyings : Type := mkVaryings {
  vPos : Vector3.t;
  vAlpha : R;
  vRandom : R;
  sizeScale : R
}.

(** [main] of the vertex shader up to the camera transform. *)
Definition vertex (uTime uProgress : R) (v : Vertex) : option Varyings :=
  match easeOutCubic uProgress with
  | None => None
  | Some t =>
      let pos := mix (position v) (aTargetPos v) t in
      (* Breathing effect (active mostly when formed as tree) *)
      let breath := sin (uTime * 2.0 + aRandom v * 10.0) * 0.03 * t in
      let pos :=
        Vector3.mk (Vector3.x pos + Vector3.x (normal v) * breath)
                   (Vector3.y pos + Vector3.y (normal v) * breath)
                   (Vector3.z pos + Vector3.z (normal v) * breath) in
      (* Jitter when scattered *)
      let jitter := sin (uTime + aRandom v * 50.0) * 0.1 * (1.0 - t) in
      let pos :=
        Vector3.mk (Vector3.x pos + jitter) (Vector3.y pos + jitter)
                   (Vector3.z pos) in
      Some (mkVaryings pos
              (0.6 + 0.4 * sin (uTime * 1.5 + aRandom v * 20.0))
              (aRandom v)
              (0.5 + 0.5 * t))
  end.

End FoliageShader.

(** A vertex to try the shader on. *)
Definition demo_vertex : FoliageShader.Vertex :=
  FoliageShader.mkVertex (Vector3.mk 1 2 3) (Vector3.mk 0 1 0)
    (Vector3.mk 0 0 1) (1 / 2) 1.

(** * Properties *)

(** ** The cube root *)

Lemma cbrt_cube (a : R) : JSMath.cbrt a ^ 3 = a.
Proof.
  unfold JSMath.cbrt.
  destruct (Rlt_dec 0 a) as [Hpos | Hnpos].
  - rewrite <- (Rpower_pow 3) by apply exp_pos.
    rewrite Rpower_mult.
    replace (/ 3 * INR 3) with 1 by (simpl; lra).
    now apply Rpower_1.
  - destruct (Rlt_dec a 0) as [Hneg | Hnneg].
    + assert (Hcube : Rpower (- a) (/ 3) ^ 3 = - a).
      { rewrite <- (Rpower_pow 3) by apply exp_pos.
        rewrite Rpower_mult.
        replace (/ 3 * INR 3) with 1 by (simpl; lra).
        apply Rpower_1; lra. }
      simpl in *. nra.
    + simpl. lra.
Qed.

Lemma cbrt_unit (a : R) : 0 <= a < 1 -> 0 <= JSMath.cbrt a < 1.
Proof.
  intros [Hlo Hhi]. unfold JSMath.cbrt.
  destruct (Rlt_dec 0 a) as [Hpos | Hnpos].
  - split; [left; apply exp_pos |].
    unfold Rpower. rewrite <- exp_0. apply exp_increasing.
    assert (ln a < 0) by (rewrite <- ln_1; now apply ln_increasing).
    nra.
  - destruct (Rlt_dec a 0); lra.
Qed.

(** ** The scatter sampler *)

Lemma randomInSphere_point (radius biasY : R) (src : RandomSource) :
  fst (randomInSphere radius biasY src)
  = let theta := 2 * PI * src 0%nat in
    let phi := acos (2 * src 1%nat - 1) in
    let r := JSMath.cbrt (src 2%nat) * radius in
    Vector3.mk (r * sin phi * cos theta)
               (r * sin phi * sin theta + biasY)
               (r * cos phi).
Proof. reflexivity. Qed.

Lemma randomInSphere_source (radius biasY : R) (src : RandomSource) :
  snd (randomInSphere radius biasY src) = fun n => src (S (S (S n))).
Proof. reflexivity. Qed.

Lemma sphere_point_distance (rho phi theta biasY : R) :
  Vector3.distanceToSquared
    (Vector3.mk (rho * sin phi * cos theta)
                (rho * sin phi * sin theta + biasY)
                (rho * cos phi))
    (Vector3.mk 0 biasY 0)
  = rho * rho.
Proof.
  unfold Vector3.distanceToSquared. simpl.
  pose proof (sin2_cos2 phi) as Hphi.
  pose proof (sin2_cos2 theta) as Htheta.
  unfold Rsqr in *.
  replace ((rho * sin phi * cos theta - 0) * (rho * sin phi * cos theta - 0)
           + (rho * sin phi * sin theta + biasY - biasY)
             * (rho * sin phi * sin theta + biasY - biasY)
           + (rho * cos phi - 0) * (rho * cos phi - 0))
    with (rho * rho
          * (sin phi * sin phi * (sin theta * sin theta + cos theta * cos theta)
             + cos phi * cos phi)) by ring.
  rewrite Htheta, Rmult_1_r, Hphi. ring.
Qed.

(** C10: for a radius [r >= 0], any bias and draws in [[0, 1)], the point
    [randomInSphere r b] returns is at distance at most [r] from
    [(0, b, 0)]. *)
Theorem randomInSphere_in_ball (radius biasY : R) (src : RandomSource) :
  0 <= radius ->
  unit_draws src ->
  Vector3.distanceTo (fst (randomInSphere radius biasY src))
                     (Vector3.mk 0 biasY 0)
  <= radius.
Proof.
  intros Hradius Hsrc.
  rewrite randomInSphere_point. cbv zeta.
  unfold Vector3.distanceTo. rewrite sphere_point_distance.
  destruct (cbrt_unit _ (Hsrc 2%nat)) as [Hlo Hhi].
  fold (Rsqr (JSMath.cbrt (src 2%nat) * radius)).
  rewrite sqrt_Rsqr by nra. nra.
Qed.

Lemma half_draws_unit : unit_draws half_draws.
Proof. intros n. unfold half_draws. lra. Qed.

Lemma randomInSphere_in_ball_witness :
  Vector3.distanceTo (fst (randomInSphere 7 1 half_draws))
                     (Vector3.mk 0 1 0)
  <= 7.
Proof.
  apply (randomInSphere_in_ball 7 1 half_draws).
  - lra.
  - exact half_draws_unit.
Defined.

(** ** The ornament population *)

Lemma bind_run {A B : Type} (m : Rand A) (k : A -> Rand B)
    (src : RandomSource) :
  bind m k src = k (fst (m src)) (snd (m src)).
Proof. unfold bind. now destruct (m src). Qed.

(** A loop invariant indexed by the loop counter. *)
Lemma forM_seq_inv {St : Type} (Q : nat -> St -> Prop)
    (body : nat -> St -> Rand St) (n : nat) :
  forall (a : nat) (s : St) (src : RandomSource),
    Q a s ->
    (forall (i : nat) (s' : St) (src' : RandomSource),
        (a <= i < a + n)%nat -> Q i s' -> Q (S i) (fst (body i s' src'))) ->
    Q (a + n)%nat (fst (forM (seq a n) body s src)).
Proof.
  induction n as [| n IH]; intros a s src Hstart Hstep; simpl.
  - now rewrite Nat.add_0_r.
  - rewrite bind_run. replace (a + S n)%nat with (S a + n)%nat by lia.
    apply IH.
    + apply Hstep; [lia | exact Hstart].
    + intros i s' src' Hi. apply Hstep. lia.
Qed.

Lemma ornament_body_cases (i j : nat) (st : OrnamentLoop.t)
    (src : RandomSource) :
  ((sphereCount <= OrnamentLoop.oIdx st)%nat
   /\ ornament_body i j st src = (Break st, src))
  \/ ((OrnamentLoop.oIdx st < sphereCount)%nat
      /\ exists st' src',
           ornament_body i j st src = (Continue st', src')
           /\ OrnamentLoop.oIdx st' = (OrnamentLoop.oIdx st + 1)%nat
           /\ OrnamentLoop.written st'
              = (OrnamentLoop.oIdx st * 3 + 2)%nat
                  :: (OrnamentLoop.oIdx st * 3 + 1)%nat
                  :: (OrnamentLoop.oIdx st * 3)%nat
                  :: OrnamentLoop.written st
           /\ length (OrnamentLoop.oScatter st')
              = length (OrnamentLoop.oScatter st)
           /\ length (OrnamentLoop.oTree st')
              = length (OrnamentLoop.oTree st)).
Proof.
  unfold ornament_body.
  destruct (Nat.leb_spec sphereCount (OrnamentLoop.oIdx st)) as [Hcap | Hroom].
  - left. split; [exact Hcap | reflexivity].
  - right. split; [exact Hroom |].
    rewrite bind_run, bind_run. unfold ret.
    eexists _, _. split; [reflexivity |].
    repeat split;
      cbn [fst OrnamentLoop.oScatter OrnamentLoop.oTree];
      rewrite ?length_insert; reflexivity.
Qed.

Lemma ornament_body_inv (i j : nat) (st : OrnamentLoop.t)
    (src : RandomSource) :
  ornament_inv st ->
  match fst (ornament_body i j st src) with
  | Continue st' | Break st' => ornament_inv st'
  end.
Proof.
  intros (Hlog & Hcap & Hlen1 & Hlen2).
  destruct (ornament_body_cases i j st src)
    as [[_ ->] | [Hroom (st' & src' & -> & Hidx & Hwr & Hl1 & Hl2)]]; simpl.
  - now repeat split.
  - split; [| repeat split; [lia | congruence | congruence]].
    rewrite Hwr, Hidx, Hlog.
    replace ((OrnamentLoop.oIdx st + 1) * 3)%nat
      with (S (S (S (OrnamentLoop.oIdx st * 3)))) by lia.
    rewrite !seq_S, !rev_app_distr. simpl.
    repeat f_equal; lia.
Qed.

Lemma forBreak_ornament_inv (i : nat) (idx : list nat) :
  forall (st : OrnamentLoop.t) (src : RandomSource),
    ornament_inv st ->
    ornament_inv (fst (forBreak idx (ornament_body i) st src)).
Proof.
  induction idx as [| j rest IH]; intros st src Hinv; simpl.
  - exact Hinv.
  - rewrite bind_run.
    pose proof (ornament_body_inv i j st src Hinv) as Hstep.
    destruct (fst (ornament_body i j st src)) as [st' | st'].
    + now apply IH.
    + exact Hstep.
Qed.

(** A ring adds its intended count, cut off at the cap. *)
Lemma forBreak_ornament_count (i : nat) (idx : list nat) :
  forall (st : OrnamentLoop.t) (src : RandomSource),
    (OrnamentLoop.oIdx st <= sphereCount)%nat ->
    OrnamentLoop.oIdx (fst (forBreak idx (ornament_body i) st src))
    = Nat.min sphereCount (OrnamentLoop.oIdx st + length idx).
Proof.
  induction idx as [| j rest IH]; intros st src Hcap; cbn [length forBreak].
  - unfold ret. cbn [fst]. lia.
  - rewrite bind_run.
    destruct (ornament_body_cases i j st src)
      as [[Hfull ->] | [Hroom (st' & src' & -> & Hidx & _)]].
    + unfold ret. cbn [fst]. lia.
    + cbn [fst snd]. rewrite IH by lia. rewrite Hidx. lia.
Qed.

Lemma ornament_ring_count (i : nat) (st : OrnamentLoop.t)
    (src : RandomSource) :
  (OrnamentLoop.oIdx st <= sphereCount)%nat ->
  OrnamentLoop.oIdx (fst (ornament_ring i st src))
  = Nat.min sphereCount (OrnamentLoop.oIdx st + ring_count i).
Proof.
  intros Hcap. unfold ornament_ring.
  rewrite forBreak_ornament_count by exact Hcap.
  unfold loop_range. now rewrite length_seq.
Qed.

Lemma rings_before_succ (i : nat) :
  rings_before (S i) = (rings_before i + ring_count i)%nat.
Proof.
  unfold rings_before, loop_range.
  rewrite seq_S, map_app, list_sum_app.
  cbn [map list_sum fold_right Nat.add]. lia.
Qed.

Lemma ornament_loops_count (src : RandomSource) :
  OrnamentLoop.oIdx (fst (ornament_loops src))
  = Nat.min sphereCount (rings_before 5).
Proof.
  unfold ornament_loops, loop_range.
  apply (forM_seq_inv
           (fun i st =>
              OrnamentLoop.oIdx st = Nat.min sphereCount (rings_before i))
           ornament_ring 5 0).
  - reflexivity.
  - intros i st src' _ Hst.
    rewrite ornament_ring_count by lia.
    rewrite Hst, rings_before_succ. lia.
Qed.

Lemma ornament_loops_inv (src : RandomSource) :
  ornament_inv (fst (ornament_loops src)).
Proof.
  unfold ornament_loops, loop_range.
  apply (forM_seq_inv (fun _ st => ornament_inv st) ornament_ring 5 0).
  - split; [reflexivity |].
    split; [cbn [OrnamentLoop.oIdx]; lia |].
    split; apply length_replicate.
  - intros i st src' _ Hst. unfold ornament_ring.
    now apply forBreak_ornament_inv.
Qed.

(** C5: the five rings of 10, 14, 18, 22 and 26 ornaments under the cap of
    120 produce exactly [min(120, 10+14+18+22+26) = 90] elements; the
    writes go to the offsets 0 to 269, each at an element index below 120
    and inside both buffers. *)
Theorem ornament_generation_count (src : RandomSource) :
  map ring_count (loop_range 5) = [10; 14; 18; 22; 26]%nat
  /\ OrnamentData.count (fst (generateOrnaments src))
     = Nat.min sphereCount (list_sum (map ring_count (loop_range 5)))
  /\ OrnamentData.count (fst (generateOrnaments src)) = 90%nat
  /\ OrnamentLoop.written (fst (ornament_loops src)) = rev (seq 0 (90 * 3))
  /\ (forall k : nat,
        In k (OrnamentLoop.written (fst (ornament_loops src))) ->
        (k / 3 < sphereCount)%nat
        /\ (k < length (OrnamentData.scatter (fst (generateOrnaments src))))%nat
        /\ (k < length (OrnamentData.tree (fst (generateOrnaments src))))%nat).
Proof.
  assert (Hcount : OrnamentData.count (fst (generateOrnaments src))
                   = Nat.min sphereCount (rings_before 5)).
  { unfold generateOrnaments. rewrite bind_run. unfold ret.
    cbn [fst OrnamentData.count]. apply ornament_loops_count. }
  split; [reflexivity |]. split; [exact Hcount |].
  split; [rewrite Hcount; reflexivity |].
  destruct (ornament_loops_inv src) as (Hlog & Hcap & Hlen1 & Hlen2).
  rewrite ornament_loops_count in Hlog.
  change (Nat.min sphereCount (rings_before 5)) with 90%nat in Hlog.
  split; [exact Hlog |].
  intros k Hk. rewrite Hlog in Hk.
  apply in_rev, in_seq in Hk.
  unfold generateOrnaments. rewrite bind_run. unfold ret.
  cbn [fst OrnamentData.scatter OrnamentData.tree].
  rewrite Hlen1, Hlen2. unfold sphereCount.
  split; [apply Nat.Div0.div_lt_upper_bound |]; lia.
Qed.

(** ** The gift population *)

Lemma gift_body_tree (i : nat) (st : GiftLoop.t) (src : RandomSource) :
  GiftLoop.gTree (fst (gift_body i st src))
  = <[(i * 3 + 2)%nat := sin (gift_theta i) * gift_r i]>
      (<[(i * 3 + 1)%nat := gift_y i]>
         (<[(i * 3)%nat := cos (gift_theta i) * gift_r i]>
            (GiftLoop.gTree st))).
Proof.
  unfold gift_body. rewrite !bind_run. reflexivity.
Qed.

Lemma gift_body_inv (i : nat) (st : GiftLoop.t) (src : RandomSource) :
  (i < giftCount)%nat ->
  gift_inv i st -> gift_inv (S i) (fst (gift_body i st src)).
Proof.
  intros Hi [Hlen Hdone]. unfold gift_inv.
  rewrite gift_body_tree, !length_insert.
  split; [exact Hlen |].
  intros k Hk.
  destruct (Nat.eq_dec k i) as [-> | Hne].
  - rewrite (list_lookup_insert_ne _ (i * 3 + 2) (i * 3)) by lia.
    rewrite (list_lookup_insert_ne _ (i * 3 + 1) (i * 3)) by lia.
    rewrite (list_lookup_insert_ne _ (i * 3 + 2) (i * 3 + 1)) by lia.
    rewrite !list_lookup_insert_eq by (rewrite ?length_insert; lia).
    repeat split.
  - destruct (Hdone k ltac:(lia)) as (Hx & Hy & Hz).
    rewrite !list_lookup_insert_ne by lia.
    now repeat split.
Qed.

Lemma gift_loop_inv (src : RandomSource) :
  gift_inv giftCount (fst (gift_loop src)).
Proof.
  unfold gift_loop, loop_range.
  apply (forM_seq_inv gift_inv gift_body giftCount 0).
  - split; [apply length_replicate | intros k Hk; lia].
  - intros i st src' Hi. apply gift_body_inv. lia.
Qed.

Lemma generateGifts_tree (src : RandomSource) :
  GiftData.tree (fst (generateGifts src))
  = GiftLoop.gTree (fst (gift_loop src)).
Proof. unfold generateGifts. rewrite bind_run. reflexivity. Qed.

Lemma gift_tree_point (src : RandomSource) (i : nat) :
  (i < giftCount)%nat ->
  read3 (GiftData.tree (fst (generateGifts src))) i
  = Vector3.mk (cos (gift_theta i) * gift_r i) (gift_y i)
               (sin (gift_theta i) * gift_r i).
Proof.
  intros Hi. rewrite generateGifts_tree.
  destruct (gift_loop_inv src) as [_ Hdone].
  destruct (Hdone i Hi) as (Hx & Hy & Hz).
  unfold read3, get. now rewrite Hx, Hy, Hz.
Qed.

(** C4, as the code has it: for every gift index [i] below 25 the tree
    position is the point of the spiral whose azimuth is [(i/25) * 10 * PI],
    five full turns across the index range, whose height is
    [-1.5 + (i/25) * 4.5] and whose radius is [2.4 * (1 - (i/25) * 0.8)]. *)
Theorem gift_target_on_spiral (src : RandomSource) (i : nat) :
  (i < giftCount)%nat ->
  read3 (GiftData.tree (fst (generateGifts src))) i = spiral_point 5 i
  /\ gift_theta i = INR i / 25 * (5 * (2 * PI))
  /\ gift_y i = -1.5 + INR i / 25 * 4.5
  /\ gift_r i = 2.4 - 2.4 * 0.8 * (INR i / 25).
Proof.
  intros Hi.
  assert (Hcount : INR giftCount = 25) by (unfold giftCount; simpl; lra).
  assert (Htheta : gift_theta i = INR i / 25 * (5 * (2 * PI))).
  { unfold gift_theta. rewrite Hcount. lra. }
  repeat split.
  - rewrite gift_tree_point by exact Hi.
    unfold spiral_point. cbv zeta. rewrite Htheta.
    unfold gift_y, gift_r. now rewrite Hcount.
  - exact Htheta.
  - unfold gift_y. now rewrite Hcount.
  - unfold gift_r. rewrite Hcount. lra.
Qed.

Lemma gift_target_on_spiral_witness :
  read3 (GiftData.tree (fst (generateGifts half_draws))) 24
  = spiral_point 5 24.
Proof.
  apply (gift_target_on_spiral half_draws 24).
  unfold giftCount. lia.
Defined.

(** C4, as stated, fails: with ten full turns the second gift would sit at
    azimuth [4 * PI / 5], on the other side of the axis from where the
    generator puts it ([2 * PI / 5]). *)
Lemma gift_ten_turns_fails :
  read3 (GiftData.tree (fst (generateGifts half_draws))) 1
  <> spiral_point 10 1.
Proof.
  rewrite gift_tree_point by (unfold giftCount; lia).
  intros Heq. apply (f_equal Vector3.x) in Heq.
  unfold spiral_point, gift_theta, gift_r in Heq. cbv zeta in Heq.
  cbn [Vector3.x] in Heq.
  replace (INR giftCount) with 25 in Heq by (unfold giftCount; simpl; lra).
  replace (INR 1) with 1 in Heq by reflexivity.
  pose proof PI_RGT_0 as Hpi.
  assert (Hnear : 0 < cos (1 / 25 * PI * 10)) by (apply cos_gt_0; lra).
  assert (Hfar : cos (1 / 25 * (10 * (2 * PI))) < 0) by (apply cos_lt_0; lra).
  nra.
Qed.

(** ** The frame callback: what each step leaves alone *)

Lemma for_each_inv (Q : nat -> Store.t -> Prop)
    (body : nat -> Store.t -> Store.t) (n : nat) (s : Store.t) :
  Q 0%nat s ->
  (forall (i : nat) (s' : Store.t), (i < n)%nat -> Q i s' -> Q (S i) (body i s')) ->
  Q n (for_each n body s).
Proof.
  unfold for_each, loop_range. intros Hstart.
  induction n as [| n IH]; intros Hstep.
  - exact Hstart.
  - rewrite seq_S, fold_left_app. simpl. apply Hstep; [lia |].
    apply IH. intros i s' Hi. apply Hstep. lia.
Qed.

Lemma for_each_preserves {A : Type} (proj : Store.t -> A)
    (body : nat -> Store.t -> Store.t) (n : nat) (s : Store.t) :
  (forall (i : nat) (s' : Store.t), proj (body i s') = proj s') ->
  proj (for_each n body s) = proj s.
Proof.
  intros Hbody.
  apply (for_each_inv (fun _ s' => proj s' = proj s)); [reflexivity |].
  intros i s' _ Hs'. now rewrite Hbody.
Qed.

Lemma ornament_frame_progress (e t sm : R) (i : nat) (s : Store.t) :
  Store.progress (ornament_frame e t sm i s) = Store.progress s.
Proof. frame_step. Qed.

Lemma ornament_frame_data (e t sm : R) (i : nat) (s : Store.t) :
  Store.data (ornament_frame e t sm i s) = Store.data s.
Proof. frame_step. Qed.

Lemma ornament_frame_groupRef (e t sm : R) (i : nat) (s : Store.t) :
  Store.groupRef (ornament_frame e t sm i s) = Store.groupRef s.
Proof. frame_step. Qed.

Lemma ornament_frame_giftsRef (e t sm : R) (i : nat) (s : Store.t) :
  Store.giftsRef (ornament_frame e t sm i s) = Store.giftsRef s.
Proof. frame_step. Qed.

Lemma gift_frame_progress (e t sm : R) (i : nat) (s : Store.t) :
  Store.progress (gift_frame e t sm i s) = Store.progress s.
Proof. frame_step. Qed.

Lemma gift_frame_data (e t sm : R) (i : nat) (s : Store.t) :
  Store.data (gift_frame e t sm i s) = Store.data s.
Proof. frame_step. Qed.

Lemma gift_frame_groupRef (e t sm : R) (i : nat) (s : Store.t) :
  Store.groupRef (gift_frame e t sm i s) = Store.groupRef s.
Proof. frame_step. Qed.

Section Untouched.

Context {A : Type} (proj : Store.t -> A).
Variables (e t sm : R).

(** A field that neither loop body nor the ref updates touch survives
    the two instance passes. *)
Hypothesis proj_ornament_frame :
  forall (i : nat) (s : Store.t), proj (ornament_frame e t sm i s) = proj s.
Hypothesis proj_gift_frame :
  forall (i : nat) (s : Store.t), proj (gift_frame e t sm i s) = proj s.
Hypothesis proj_set_ornamentRef :
  forall (v : option InstancedMesh.t) (s : Store.t),
    proj (Store.set_ornamentRef v s) = proj s.
Hypothesis proj_set_giftsRef :
  forall (v : option InstancedMesh.t) (s : Store.t),
    proj (Store.set_giftsRef v s) = proj s.

Lemma update_ornaments_preserves (s : Store.t) :
  proj (update_ornaments e t sm s) = proj s.
Proof using proj_ornament_frame proj_set_ornamentRef.
  unfold update_ornaments. destruct (Store.ornamentRef s); [| reflexivity].
  cbv zeta. rewrite proj_set_ornamentRef.
  now apply for_each_preserves.
Qed.

Lemma update_gifts_preserves (s : Store.t) :
  proj (update_gifts e t sm s) = proj s.
Proof using proj_gift_frame proj_set_giftsRef.
  unfold update_gifts. destruct (Store.giftsRef s); [| reflexivity].
  cbv zeta. rewrite proj_set_giftsRef.
  now apply for_each_preserves.
Qed.

End Untouched.

Lemma useFrame_progress (f : Frame.t) (s : Store.t) :
  Store.progress (useFrame f s)
  = MathUtils.lerp (Store.progress s)
      (targetProgress (TreeConfig.morphState (Frame.config f)))
      (Frame.delta f * 2.0).
Proof.
  unfold useFrame. cbv zeta.
  rewrite (update_gifts_preserves Store.progress)
    by (intros; try apply gift_frame_progress; reflexivity).
  rewrite (update_ornaments_preserves Store.progress)
    by (intros; try apply ornament_frame_progress; reflexivity).
  unfold update_foliage, update_progress, rotate_group.
  destruct (Store.groupRef s); cbn [Store.foliageMatRef Store.set_progress Store.set_groupRef];
    destruct (Store.foliageMatRef s); reflexivity.
Qed.

Lemma useFrame_data (f : Frame.t) (s : Store.t) :
  Store.data (useFrame f s) = Store.data s.
Proof.
  unfold useFrame. cbv zeta.
  rewrite (update_gifts_preserves Store.data)
    by (intros; try apply gift_frame_data; reflexivity).
  rewrite (update_ornaments_preserves Store.data)
    by (intros; try apply ornament_frame_data; reflexivity).
  unfold update_foliage, update_progress, rotate_group.
  destruct (Store.groupRef s); cbn [Store.foliageMatRef Store.set_progress Store.set_groupRef];
    destruct (Store.foliageMatRef s); reflexivity.
Qed.

Lemma useFrame_groupRef (f : Frame.t) (s : Store.t) :
  Store.groupRef (useFrame f s) = Store.groupRef (rotate_group f s).
Proof.
  unfold useFrame. cbv zeta.
  rewrite (update_gifts_preserves Store.groupRef)
    by (intros; try apply gift_frame_groupRef; reflexivity).
  rewrite (update_ornaments_preserves Store.groupRef)
    by (intros; try apply ornament_frame_groupRef; reflexivity).
  unfold update_foliage, update_progress.
  cbn [Store.foliageMatRef Store.set_progress].
  destruct (Store.foliageMatRef (rotate_group f s)); reflexivity.
Qed.

Lemma run_frames_app (pre post : list Frame.t) (s : Store.t) :
  run_frames (pre ++ post) s = run_frames post (run_frames pre s).
Proof. unfold run_frames. apply fold_left_app. Qed.

Lemma run_frames_cons (f : Frame.t) (rest : list Frame.t) (s : Store.t) :
  run_frames (f :: rest) s = run_frames rest (useFrame f s).
Proof. reflexivity. Qed.

(** ** The morph progress scheduler *)

Lemma targetProgress_cases (m : TreeMorphState) :
  targetProgress m = 0 \/ targetProgress m = 1.
Proof. destruct m; [left | right]; reflexivity. Qed.

(** One update with a lerp factor in [[0, 1]]. *)
Lemma lerp_step_toward (p target a : R) :
  0 <= p <= 1 ->
  target = 0 \/ target = 1 ->
  0 <= a <= 1 ->
  0 <= MathUtils.lerp p target a <= 1
  /\ Rabs (target - MathUtils.lerp p target a) <= Rabs (target - p)
  /\ (p <= target -> MathUtils.lerp p target a <= target)
  /\ (target <= p -> target <= MathUtils.lerp p target a).
Proof.
  intros Hp Htarget Ha. unfold MathUtils.lerp.
  replace (target - ((1 - a) * p + a * target))
    with ((1 - a) * (target - p)) by ring.
  rewrite Rabs_mult, (Rabs_pos_eq (1 - a)) by lra.
  pose proof (Rabs_pos (target - p)) as Habs.
  destruct Htarget as [-> | ->]; repeat split; intros; nra.
Qed.

Lemma run_frames_progress_bounded (frames : list Frame.t) :
  forall s : Store.t,
    0 <= Store.progress s <= 1 ->
    Forall (fun f => 0 <= Frame.delta f <= 1 / 2) frames ->
    0 <= Store.progress (run_frames frames s) <= 1.
Proof.
  induction frames as [| f rest IH]; intros s Hp Hdeltas.
  - exact Hp.
  - rewrite run_frames_cons.
    apply Forall_cons in Hdeltas as [Hf Hrest].
    apply IH; [| exact Hrest].
    rewrite useFrame_progress.
    apply lerp_step_toward; [exact Hp | apply targetProgress_cases | lra].
Qed.

(** C1, as the code has it: when every frame delta lies in [[0, 1/2]]
    (so that the lerp factor [delta * 2.0] is at most 1) and progress
    starts in [[0, 1]], then at every frame of every sequence, whatever the
    morph states, progress stays in [[0, 1]], its distance to the frame's
    target does not grow and it does not cross to the far side of the
    target. *)
Theorem progress_bounded_no_overshoot
    (s : Store.t) (pre post : list Frame.t) (f : Frame.t) :
  0 <= Store.progress s <= 1 ->
  Forall (fun g => 0 <= Frame.delta g <= 1 / 2) (pre ++ f :: post) ->
  let target := targetProgress (TreeConfig.morphState (Frame.config f)) in
  let before := Store.progress (run_frames pre s) in
  let after := Store.progress (run_frames (pre ++ [f]) s) in
  0 <= after <= 1
  /\ Rabs (target - after) <= Rabs (target - before)
  /\ (before <= target -> after <= target)
  /\ (target <= before -> target <= after).
Proof.
  intros Hp Hdeltas target before after.
  apply Forall_app in Hdeltas as [Hpre Hrest].
  apply Forall_cons in Hrest as [Hf _].
  subst after. rewrite run_frames_app, run_frames_cons.
  change (run_frames [] ?x) with x. rewrite useFrame_progress.
  apply lerp_step_toward.
  - now apply run_frames_progress_bounded.
  - apply targetProgress_cases.
  - lra.
Qed.

Lemma progress_bounded_no_overshoot_witness :
  let target := targetProgress SCATTERED in
  let before :=
    Store.progress (run_frames [Frame.mk tree_config 0 (1 / 60)] mounted) in
  let after :=
    Store.progress
      (run_frames ([Frame.mk tree_config 0 (1 / 60)]
                     ++ [Frame.mk scattered_config (1 / 60) (1 / 2)])
                  mounted) in
  0 <= after <= 1
  /\ Rabs (target - after) <= Rabs (target - before)
  /\ (before <= target -> after <= target)
  /\ (target <= before -> target <= after).
Proof.
  apply (progress_bounded_no_overshoot mounted
           [Frame.mk tree_config 0 (1 / 60)]
           [Frame.mk tree_config (1 / 2 + 1 / 60) (1 / 30)]
           (Frame.mk scattered_config (1 / 60) (1 / 2))).
  - change (Store.progress mounted) with 1. lra.
  - repeat constructor; cbn [Frame.delta]; lra.
Defined.

(** C1, as stated, fails: one frame of one second from the assembled tree
    with the flag on SCATTERED carries progress from 1 past the target 0
    to -1. *)
Lemma progress_overshoots_on_long_frame :
  Store.progress (useFrame (Frame.mk scattered_config 0 1) mounted) = -1
  /\ ~ (0 <= Store.progress (useFrame (Frame.mk scattered_config 0 1) mounted)
        <= 1)
  /\ ~ (targetProgress SCATTERED
        <= Store.progress (useFrame (Frame.mk scattered_config 0 1) mounted)).
Proof.
  rewrite useFrame_progress.
  change (Store.progress mounted) with 1.
  unfold MathUtils.lerp, targetProgress. cbn.
  repeat split; lra.
Qed.

(** C2, as the code has it: the update is the linear step
    [progress += (target - progress) * (2.0 * dt)]; two updates with [d1]
    and [d2] differ from one update with [d1 + d2] by
    [4 * d1 * d2 * (progress - target)]. *)
Theorem progress_update_linear
    (cfg : TreeConfig.t) (e1 e2 e12 d1 d2 : R) (s : Store.t) :
  let target := targetProgress (TreeConfig.morphState cfg) in
  Store.progress (useFrame (Frame.mk cfg e1 d1) s)
  = Store.progress s + (target - Store.progress s) * (2.0 * d1)
  /\ Store.progress
       (run_frames [Frame.mk cfg e1 d1; Frame.mk cfg e2 d2] s)
     = Store.progress (run_frames [Frame.mk cfg e12 (d1 + d2)] s)
       + 4 * d1 * d2 * (Store.progress s - target).
Proof.
  intros target. rewrite !run_frames_cons.
  change (run_frames [] ?x) with x.
  rewrite !useFrame_progress. cbn [Frame.config Frame.delta].
  fold target. unfold MathUtils.lerp. split; lra.
Qed.

(** C2, as stated, fails: from the assembled tree with the flag on
    SCATTERED, two frames of a quarter second leave progress at 1/4 while
    one frame of half a second leaves it at 0, where the exponential form
    gives [exp (-1)]. *)
Lemma progress_update_depends_on_frame_rate :
  Store.progress
    (run_frames [Frame.mk scattered_config 0 (1 / 4);
                 Frame.mk scattered_config (1 / 4) (1 / 4)] mounted)
  <> Store.progress
       (run_frames [Frame.mk scattered_config 0 (1 / 2)] mounted)
  /\ Store.progress (useFrame (Frame.mk scattered_config 0 (1 / 2)) mounted)
     <> Store.progress mounted
        + (targetProgress SCATTERED - Store.progress mounted)
          * (1 - exp (- (2.0 * (1 / 2)))).
Proof.
  rewrite !run_frames_cons. change (run_frames [] ?x) with x.
  rewrite !useFrame_progress.
  change (Store.progress mounted) with 1.
  unfold MathUtils.lerp, targetProgress. cbn.
  pose proof (exp_pos (- (2.0 * (1 / 2)))) as Hexp.
  split; lra.
Qed.

Lemma run_scattered_progress (frames : list Frame.t) :
  forall s : Store.t,
    Forall (fun f => TreeConfig.morphState (Frame.config f) = SCATTERED
                     /\ Frame.delta f = 1 / 60) frames ->
    Store.progress (run_frames frames s)
    = Store.progress s * (29 / 30) ^ length frames.
Proof.
  induction frames as [| f rest IH]; intros s Hframes.
  - simpl. lra.
  - apply Forall_cons in Hframes as [[Hstate Hdelta] Hrest].
    rewrite run_frames_cons, IH by exact Hrest.
    rewrite useFrame_progress, Hstate, Hdelta.
    unfold MathUtils.lerp, targetProgress. cbn. lra.
Qed.

Lemma decay_five_seconds : (29 / 30) ^ 300 < 1 / 1000.
Proof.
  change 300%nat with (10 * (10 * 3))%nat.
  rewrite !pow_mult.
  assert (Hten : 0 <= (29 / 30) ^ 10 <= 72 / 100) by (simpl; lra).
  assert (Hhundred : 0 <= ((29 / 30) ^ 10) ^ 10 <= 4 / 100).
  { split; [apply pow_le; lra |].
    apply Rle_trans with ((72 / 100) ^ 10); [apply pow_incr; lra |].
    simpl. lra. }
  apply Rle_lt_trans with ((4 / 100) ^ 3); [apply pow_incr; lra |].
  simpl. lra.
Qed.

(** C7: from progress 1 with the flag on SCATTERED, 300 updates of 1/60
    second each leave progress within 1e-3 of 0. *)
Theorem progress_after_five_seconds (s : Store.t) (frames : list Frame.t) :
  Store.progress s = 1 ->
  length frames = 300%nat ->
  Forall (fun f => TreeConfig.morphState (Frame.config f) = SCATTERED
                   /\ Frame.delta f = 1 / 60) frames ->
  Rabs (Store.progress (run_frames frames s) - 0) < 1e-3.
Proof.
  intros Hstart Hlen Hframes.
  rewrite run_scattered_progress by exact Hframes.
  rewrite Hstart, Hlen, Rmult_1_l, Rminus_0_r.
  pose proof decay_five_seconds as Hdecay.
  rewrite Rabs_pos_eq by (apply pow_le; lra). lra.
Qed.

Lemma progress_after_five_seconds_witness :
  Rabs (Store.progress
          (run_frames (replicate 300 (Frame.mk scattered_config 0 (1 / 60)))
                      mounted) - 0)
  < 1e-3.
Proof.
  apply (progress_after_five_seconds mounted
           (replicate 300 (Frame.mk scattered_config 0 (1 / 60)))).
  - reflexivity.
  - apply length_replicate.
  - apply Forall_replicate. split; reflexivity.
Defined.

(** ** Easing and the heavy lag *)

Lemma smoothT_unit (t : R) : 0 <= t <= 1 -> 0 <= smoothT t <= 1.
Proof.
  intros [Hlo Hhi]. unfold smoothT, JSMath.pow.
  destruct (Rlt_dec t 0.5) as [Hlow | Hhigh].
  - assert (0 <= t * t <= 1 / 4) by nra. nra.
  - assert (Hu : 0 <= -2 * t + 2 <= 1) by lra.
    assert (0 <= (-2 * t + 2) * (-2 * t + 2) <= 1) by nra.
    simpl. nra.
Qed.

Lemma effectiveT_lag (x : R) :
  0 <= x <= 1 ->
  effectiveT x <= x
  /\ (0 < x -> effectiveT x < x)
  /\ (x <= 0.1 -> effectiveT x = 0)
  /\ (0.1 <= x -> effectiveT x = (x - 0.1) * 1.1)
  /\ effectiveT x <= 0.99.
Proof.
  intros [Hlo Hhi].
  unfold effectiveT, heavyT, MathUtils.clamp, JSMath.max, JSMath.min,
    Rmax, Rmin.
  destruct (Rle_dec 0 (x - 0.1));
    destruct (Rle_dec 1 ((x - 0.1) * 1.1));
    destruct (Rle_dec 1 (0 * 1.1));
    repeat match goal with
           | |- context [Rle_dec ?a ?b] => destruct (Rle_dec a b)
           end;
    repeat split; intros; lra.
Qed.

(** C3, as the code has it: for progress [t] in [[0, 1]] the heavy factor
    is at most the light factor and strictly below it once the light
    factor is positive; from 0.1 on it is [(smoothT - 0.1) * 1.1], which
    never reaches the upper clamp and ends at 0.99. *)
Theorem heavy_factor_lags (t : R) :
  0 <= t <= 1 ->
  effectiveT (smoothT t) <= smoothT t
  /\ (0 < smoothT t -> effectiveT (smoothT t) < smoothT t)
  /\ (smoothT t <= 0.1 -> effectiveT (smoothT t) = 0)
  /\ (0.1 <= smoothT t -> effectiveT (smoothT t) = (smoothT t - 0.1) * 1.1)
  /\ effectiveT (smoothT t) <= 0.99.
Proof.
  intros Ht. apply effectiveT_lag. now apply smoothT_unit.
Qed.

Lemma heavy_factor_lags_witness :
  effectiveT (smoothT (1 / 2)) <= smoothT (1 / 2)
  /\ (0 < smoothT (1 / 2) -> effectiveT (smoothT (1 / 2)) < smoothT (1 / 2))
  /\ (smoothT (1 / 2) <= 0.1 -> effectiveT (smoothT (1 / 2)) = 0)
  /\ (0.1 <= smoothT (1 / 2)
      -> effectiveT (smoothT (1 / 2)) = (smoothT (1 / 2) - 0.1) * 1.1)
  /\ effectiveT (smoothT (1 / 2)) <= 0.99.
Proof.
  apply (heavy_factor_lags (1 / 2)). lra.
Defined.

Lemma smoothT_one : smoothT 1 = 1.
Proof.
  unfold smoothT, JSMath.pow.
  destruct (Rlt_dec 1 0.5); [lra | simpl; lra].
Qed.

(** C3, as stated, fails: at progress 1 the light factor is 1, above
    0.91, and the heavy factor is 0.99. *)
Lemma heavy_factor_never_catches_up :
  0 <= 1 <= 1
  /\ 0.91 < smoothT 1
  /\ effectiveT (smoothT 1) = 0.99
  /\ effectiveT (smoothT 1) <> smoothT 1.
Proof.
  rewrite smoothT_one.
  destruct (effectiveT_lag 1 ltac:(lra)) as (_ & _ & _ & Hval & _).
  rewrite Hval by lra. repeat split; lra.
Qed.

(** ** The gift interpolator once assembled *)

Lemma gift_frame_settled (e t sm : R) (i : nat) (s : Store.t)
    (mesh : InstancedMesh.t) :
  ~ t < 0.99 ->
  Store.giftsRef s = Some mesh ->
  Store.giftsRef (gift_frame e t sm i s)
  = Some (InstancedMesh.setMatrixAt i
            (Matrix4.compose
               (Vector3.lerpVectors
                  (read3 (GiftData.scatter (SceneData.giftData (Store.data s))) i)
                  (read3 (GiftData.tree (SceneData.giftData (Store.data s))) i)
                  (effectiveT sm))
               (Euler.mk 0 0 0)
               (Vector3.mk 0.25 0.25 0.25))
            mesh).
Proof.
  intros Ht Hmesh. unfold gift_frame. cbv zeta.
  destruct (Rlt_dec t 0.99) as [Hlow | _]; [contradiction |].
  cbn [Store.giftsRef Store.set_dummy Store.set_currentVec Store.set_vec3Tree
       Store.set_vec3Scatter].
  rewrite Hmesh. reflexivity.
Qed.

Lemma gift_loop_settled (e t sm : R) (s0 : Store.t) (mesh0 : InstancedMesh.t)
    (n : nat) :
  ~ t < 0.99 ->
  Store.giftsRef s0 = Some mesh0 ->
  gifts_settled s0 mesh0 n (for_each n (gift_frame e t sm) s0).
Proof.
  intros Ht Hmesh0.
  apply (for_each_inv (gifts_settled s0 mesh0)).
  - split; [reflexivity |]. exists mesh0.
    split; [exact Hmesh0 |]. split; [reflexivity |]. intros i Hi. lia.
  - intros k s _ (Hdata & mesh & Hmesh & Hlen & Hdone).
    split; [now rewrite gift_frame_data |].
    rewrite (gift_frame_settled e t sm k s mesh Ht Hmesh).
    eexists. split; [reflexivity |].
    unfold InstancedMesh.setMatrixAt. cbn [InstancedMesh.instanceMatrix].
    rewrite length_insert. split; [exact Hlen |].
    intros i Hi Hbound.
    destruct (Nat.eq_dec i k) as [-> | Hne].
    + rewrite list_lookup_insert_eq by lia.
      eexists. split; reflexivity.
    + rewrite list_lookup_insert_ne by lia.
      apply Hdone; [lia | exact Hbound].
Qed.

Lemma update_gifts_settled (e t sm : R) (s : Store.t)
    (mesh : InstancedMesh.t) (i : nat) :
  ~ t < 0.99 ->
  Store.giftsRef s = Some mesh ->
  (i < GiftData.count (SceneData.giftData (Store.data s)))%nat ->
  (i < length (InstancedMesh.instanceMatrix mesh))%nat ->
  exists (mesh' : InstancedMesh.t) (m : Matrix4.t),
    Store.giftsRef (update_gifts e t sm s) = Some mesh'
    /\ InstancedMesh.instanceMatrix mesh' !! i = Some m
    /\ zero_rotation m.
Proof.
  intros Ht Hmesh Hcount Hbound.
  unfold update_gifts. rewrite Hmesh. cbv zeta.
  destruct (gift_loop_settled e t sm s mesh
              (GiftData.count (SceneData.giftData (Store.data s))) Ht Hmesh)
    as (_ & mesh' & Hmesh' & _ & Hdone).
  destruct (Hdone i Hcount Hbound) as (m & Hm & Hzero).
  exists (InstancedMesh.flag mesh'), m.
  cbn [Store.giftsRef Store.set_giftsRef]. rewrite Hmesh'.
  split; [reflexivity |]. split; [exact Hm | exact Hzero].
Qed.

Lemma before_gifts_giftsRef (f : Frame.t) (t sm : R) (s : Store.t) :
  Store.giftsRef
    (update_ornaments (Frame.elapsedTime f) t sm
       (update_foliage f (update_progress f (rotate_group f s))))
  = Store.giftsRef s.
Proof.
  rewrite (update_ornaments_preserves Store.giftsRef)
    by (intros; try apply ornament_frame_giftsRef; reflexivity).
  unfold update_foliage, update_progress, rotate_group.
  destruct (Store.groupRef s);
    cbn [Store.foliageMatRef Store.set_progress Store.set_groupRef];
    destruct (Store.foliageMatRef s); reflexivity.
Qed.

Lemma before_gifts_data (f : Frame.t) (t sm : R) (s : Store.t) :
  Store.data
    (update_ornaments (Frame.elapsedTime f) t sm
       (update_foliage f (update_progress f (rotate_group f s))))
  = Store.data s.
Proof.
  rewrite (update_ornaments_preserves Store.data)
    by (intros; try apply ornament_frame_data; reflexivity).
  unfold update_foliage, update_progress, rotate_group.
  destruct (Store.groupRef s);
    cbn [Store.foliageMatRef Store.set_progress Store.set_groupRef];
    destruct (Store.foliageMatRef s); reflexivity.
Qed.

Lemma update_progress_value (f : Frame.t) (s : Store.t) :
  Store.progress (update_progress f (rotate_group f s))
  = Store.progress (useFrame f s).
Proof.
  rewrite useFrame_progress. unfold update_progress, rotate_group.
  destruct (Store.groupRef s); reflexivity.
Qed.

(** C6: in a frame whose progress value is at least 0.99, the gift
    interpolator leaves every gift's instance matrix with the orientation
    zero on all three axes. *)
Theorem gifts_snap_to_identity
    (f : Frame.t) (s : Store.t) (mesh : InstancedMesh.t) (i : nat) :
  Store.giftsRef s = Some mesh ->
  (i < GiftData.count (SceneData.giftData (Store.data s)))%nat ->
  (i < length (InstancedMesh.instanceMatrix mesh))%nat ->
  0.99 <= Store.progress (useFrame f s) ->
  exists (mesh' : InstancedMesh.t) (m : Matrix4.t),
    Store.giftsRef (useFrame f s) = Some mesh'
    /\ InstancedMesh.instanceMatrix mesh' !! i = Some m
    /\ Matrix4.rotation m = Euler.mk 0 0 0.
Proof.
  intros Hmesh Hcount Hbound Hassembled.
  rewrite <- update_progress_value in Hassembled.
  unfold useFrame. cbv zeta.
  apply update_gifts_settled with (mesh := mesh).
  - lra.
  - now rewrite before_gifts_giftsRef.
  - now rewrite before_gifts_data.
  - exact Hbound.
Qed.

Lemma generate_gift_count (src : RandomSource) :
  GiftData.count (SceneData.giftData (fst (generate src))) = giftCount.
Proof.
  unfold generate, generateGifts. rewrite !bind_run. reflexivity.
Qed.

Lemma gifts_snap_to_identity_witness :
  exists (mesh' : InstancedMesh.t) (m : Matrix4.t),
    Store.giftsRef (useFrame (Frame.mk tree_config 0 (1 / 60)) mounted)
    = Some mesh'
    /\ InstancedMesh.instanceMatrix mesh' !! 24%nat = Some m
    /\ Matrix4.rotation m = Euler.mk 0 0 0.
Proof.
  apply (gifts_snap_to_identity (Frame.mk tree_config 0 (1 / 60)) mounted
           (InstancedMesh.new
              (GiftData.count (SceneData.giftData (fst (generate half_draws)))))
           24).
  - reflexivity.
  - change (Store.data mounted) with (fst (generate half_draws)).
    rewrite generate_gift_count. unfold giftCount. lia.
  - unfold InstancedMesh.new. cbn [InstancedMesh.instanceMatrix].
    rewrite length_replicate, generate_gift_count. unfold giftCount. lia.
  - rewrite useFrame_progress.
    change (Store.progress mounted) with 1.
    unfold MathUtils.lerp, targetProgress. cbn. lra.
Defined.

(** ** The whole-assembly rotation *)

(** C8: each frame adds [delta * rotationSpeed * m] to the yaw of the
    group, where [m] is 0.2 when the flag is SCATTERED and 1.0 when it is
    TREE_SHAPE, whatever the progress value of the store. *)
Theorem yaw_increment (f : Frame.t) (s : Store.t) (g : Group.t) :
  Store.groupRef s = Some g ->
  let m :=
    match TreeConfig.morphState (Frame.config f) with
    | SCATTERED => 0.2
    | TREE_SHAPE => 1.0
    end in
  Store.groupRef (useFrame f s)
  = Some (Group.mk
            (Group.rotation_y g
             + Frame.delta f * TreeConfig.rotationSpeed (Frame.config f) * m)).
Proof.
  intros Hgroup m. rewrite useFrame_groupRef.
  unfold rotate_group. rewrite Hgroup.
  cbn [Store.groupRef Store.set_groupRef]. subst m.
  destruct (TreeConfig.morphState (Frame.config f)); reflexivity.
Qed.

Lemma yaw_increment_witness :
  Store.groupRef (useFrame (Frame.mk scattered_config 0 (1 / 60)) mounted)
  = Some (Group.mk (0 + 1 / 60 * 0.3 * 0.2)).
Proof.
  apply (yaw_increment (Frame.mk scattered_config 0 (1 / 60)) mounted
           (Group.mk 0)).
  reflexivity.
Defined.

(** ** The endpoint buffers *)

Lemma run_frames_data (frames : list Frame.t) :
  forall s : Store.t, Store.data (run_frames frames s) = Store.data s.
Proof.
  induction frames as [| f rest IH]; intros s.
  - reflexivity.
  - rewrite run_frames_cons, IH. apply useFrame_data.
Qed.

(** C9: whatever frames are run, with whatever morph states, the scatter
    and target buffers of the three populations hold what generation put
    there. *)
Theorem endpoints_never_written (s : Store.t) (frames : list Frame.t) :
  let before := Store.data s in
  let after := Store.data (run_frames frames s) in
  BufferGeometry.position (SceneData.pointsGeometry after)
  = BufferGeometry.position (SceneData.pointsGeometry before)
  /\ BufferGeometry.aTargetPos (SceneData.pointsGeometry after)
     = BufferGeometry.aTargetPos (SceneData.pointsGeometry before)
  /\ OrnamentData.scatter (SceneData.ornamentData after)
     = OrnamentData.scatter (SceneData.ornamentData before)
  /\ OrnamentData.tree (SceneData.ornamentData after)
     = OrnamentData.tree (SceneData.ornamentData before)
  /\ GiftData.scatter (SceneData.giftData after)
     = GiftData.scatter (SceneData.giftData before)
  /\ GiftData.tree (SceneData.giftData after)
     = GiftData.tree (SceneData.giftData before).
Proof.
  intros before after. subst before after.
  rewrite run_frames_data. repeat split.
Qed.

(** * Further properties of the scheduler and the rotation *)

(** X1: while the flag stays on one state, a run of frames multiplies the
    signed distance between progress and that state's target by the product
    of the factors [1 - 2 * delta] of its frames, whatever the deltas. *)
Theorem progress_product_form
    (frames : list Frame.t) (m : TreeMorphState) (s : Store.t) :
  Forall (fun f => TreeConfig.morphState (Frame.config f) = m) frames ->
  Store.progress (run_frames frames s) - targetProgress m
  = (Store.progress s - targetProgress m) * decay frames.
Proof.
  revert s. induction frames as [| f rest IH]; intros s Hflag.
  - simpl. lra.
  - apply Forall_cons in Hflag as [Hf Hrest].
    rewrite run_frames_cons, IH by exact Hrest.
    rewrite useFrame_progress, Hf. cbn [decay fold_right].
    fold (decay rest). unfold MathUtils.lerp. lra.
Qed.

Lemma progress_product_form_witness :
  Store.progress
    (run_frames [Frame.mk scattered_config 0 (1 / 4);
                 Frame.mk scattered_config (1 / 4) (3 / 4)] mounted)
  - targetProgress SCATTERED
  = (Store.progress mounted - targetProgress SCATTERED)
    * decay [Frame.mk scattered_config 0 (1 / 4);
             Frame.mk scattered_config (1 / 4) (3 / 4)].
Proof.
  apply (progress_product_form
           [Frame.mk scattered_config 0 (1 / 4);
            Frame.mk scattered_config (1 / 4) (3 / 4)] SCATTERED mounted).
  repeat constructor.
Defined.

(** X2: one frame scales the distance between progress and the frame's
    target by exactly [|1 - 2 * delta|]: the distance does not grow for a
    delta in [[0, 1]] and grows for a delta above 1 unless progress is
    already on the target. *)
Theorem progress_distance_scaling (f : Frame.t) (s : Store.t) :
  let target := targetProgress (TreeConfig.morphState (Frame.config f)) in
  let before := Rabs (target - Store.progress s) in
  let after := Rabs (target - Store.progress (useFrame f s)) in
  after = Rabs (1 - Frame.delta f * 2.0) * before
  /\ (0 <= Frame.delta f <= 1 -> after <= before)
  /\ (1 < Frame.delta f -> Store.progress s <> target -> before < after).
Proof.
  intros target before after.
  assert (Hscale : after = Rabs (1 - Frame.delta f * 2.0) * before).
  { subst after before. rewrite useFrame_progress. fold target.
    unfold MathUtils.lerp. rewrite <- Rabs_mult. f_equal. ring. }
  pose proof (Rabs_pos (target - Store.progress s)) as Hpos.
  fold before in Hpos.
  split; [exact Hscale |]. split.
  - intros Hdelta. rewrite Hscale.
    assert (Rabs (1 - Frame.delta f * 2.0) <= 1)
      by (apply Rabs_le; lra).
    nra.
  - intros Hdelta Hoff. rewrite Hscale.
    assert (1 < Rabs (1 - Frame.delta f * 2.0)).
    { rewrite Rabs_left by lra. lra. }
    assert (0 < before).
    { subst before. apply Rabs_pos_lt. lra. }
    nra.
Qed.

Lemma run_frames_groupRef_none (frames : list Frame.t) :
  forall s : Store.t,
    Store.groupRef s = None -> Store.groupRef (run_frames frames s) = None.
Proof.
  induction frames as [| f rest IH]; intros s Hnone; [exact Hnone |].
  rewrite run_frames_cons. apply IH.
  rewrite useFrame_groupRef. unfold rotate_group. now rewrite Hnone.
Qed.

(** X3: once the group ref is set, a run of frames leaves the group's yaw
    at its starting value plus the sum over the frames of
    [delta * rotationSpeed * speedMult]; the progress value plays no part. *)
Theorem yaw_accumulates (frames : list Frame.t) (s : Store.t) (g : Group.t) :
  Store.groupRef s = Some g ->
  Store.groupRef (run_frames frames s)
  = Some (Group.mk (Group.rotation_y g + yaw_added frames)).
Proof.
  revert s g. induction frames as [| f rest IH]; intros s g Hgroup.
  - simpl. rewrite Hgroup. destruct g as [ry]. cbn. do 2 f_equal. lra.
  - rewrite run_frames_cons.
    rewrite (IH (useFrame f s)
               (Group.mk
                  (Group.rotation_y g
                   + Frame.delta f * TreeConfig.rotationSpeed (Frame.config f)
                     * speedMult (TreeConfig.morphState (Frame.config f))))).
    + cbn [yaw_added fold_right Group.rotation_y]. fold (yaw_added rest).
      do 2 f_equal. lra.
    + rewrite useFrame_groupRef. unfold rotate_group. rewrite Hgroup.
      reflexivity.
Qed.

Lemma yaw_accumulates_witness :
  Store.groupRef
    (run_frames [Frame.mk tree_config 0 (1 / 60);
                 Frame.mk scattered_config (1 / 60) (1 / 30)] mounted)
  = Some (Group.mk
            (0 + yaw_added [Frame.mk tree_config 0 (1 / 60);
                            Frame.mk scattered_config (1 / 60) (1 / 30)])).
Proof.
  apply (yaw_accumulates
           [Frame.mk tree_config 0 (1 / 60);
            Frame.mk scattered_config (1 / 60) (1 / 30)]
           mounted (Group.mk 0)).
  reflexivity.
Defined.

(** * Further properties of the easing curves *)

Lemma cube_le (a b : R) : a <= b -> a * a * a <= b * b * b.
Proof.
  intros Hab.
  assert (Hsq : 0 <= b * b + a * b + a * a).
  { replace (b * b + a * b + a * a)
      with ((a + b / 2) * (a + b / 2) + 3 / 4 * (b * b)) by field.
    pose proof (Rle_0_sqr (a + b / 2)) as H1.
    pose proof (Rle_0_sqr b) as H2. unfold Rsqr in *. lra. }
  replace (b * b * b) with (a * a * a + (b - a) * (b * b + a * b + a * a))
    by ring.
  assert (0 <= (b - a) * (b * b + a * b + a * a))
    by (apply Rmult_le_pos; lra).
  lra.
Qed.

Lemma smoothT_low (t : R) : t < 0.5 -> smoothT t = 4 * (t * t * t).
Proof.
  intros Ht. unfold smoothT. destruct (Rlt_dec t 0.5); [ring | contradiction].
Qed.

Lemma smoothT_high (t : R) :
  0.5 <= t ->
  smoothT t = 1 - (2 - 2 * t) * (2 - 2 * t) * (2 - 2 * t) / 2.
Proof.
  intros Ht. unfold smoothT, JSMath.pow.
  destruct (Rlt_dec t 0.5); [lra | simpl; field].
Qed.

Lemma smoothT_monotone (a b : R) : a <= b -> smoothT a <= smoothT b.
Proof.
  intros Hab.
  destruct (Rlt_dec a 0.5) as [Ha | Ha]; destruct (Rlt_dec b 0.5) as [Hb | Hb].
  - rewrite !smoothT_low by assumption.
    pose proof (cube_le a b Hab). lra.
  - rewrite smoothT_low by assumption. rewrite smoothT_high by lra.
    pose proof (cube_le a (1 / 2) ltac:(lra)) as Hlow.
    pose proof (cube_le (2 - 2 * b) 1 ltac:(lra)) as Hhigh.
    lra.
  - lra.
  - rewrite !smoothT_high by lra.
    pose proof (cube_le (2 - 2 * b) (2 - 2 * a) ltac:(lra)). lra.
Qed.

(** X4: the easing [smoothT] is symmetric about the midpoint,
    [smoothT (1 - t) = 1 - smoothT t], it never decreases as progress
    grows, and it fixes 0, 1/2 and 1. *)
Theorem smoothT_symmetric_monotone :
  (forall t : R, smoothT (1 - t) = 1 - smoothT t)
  /\ (forall a b : R, a <= b -> smoothT a <= smoothT b)
  /\ smoothT 0 = 0 /\ smoothT (1 / 2) = 1 / 2 /\ smoothT 1 = 1.
Proof.
  split; [| split; [exact smoothT_monotone |]].
  - intros t.
    destruct (Rlt_dec t 0.5) as [Ht | Ht].
    + rewrite (smoothT_low t) by assumption.
      rewrite smoothT_high by lra. field.
    + destruct (Rlt_dec (1 - t) 0.5) as [Hu | Hu].
      * rewrite (smoothT_low (1 - t)) by assumption.
        rewrite smoothT_high by lra. field.
      * replace t with (1 / 2) by lra.
        rewrite !smoothT_high by lra. lra.
  - rewrite smoothT_low by lra. rewrite !smoothT_high by lra.
    repeat split; lra.
Qed.

Lemma effectiveT_range (x : R) : 0 <= effectiveT x <= 1.
Proof.
  unfold effectiveT, MathUtils.clamp, JSMath.max, JSMath.min.
  split.
  - apply Rmax_l.
  - apply Rmax_lub; [lra | apply Rmin_l].
Qed.

Lemma effectiveT_monotone (a b : R) : a <= b -> effectiveT a <= effectiveT b.
Proof.
  intros Hab.
  unfold effectiveT, heavyT, MathUtils.clamp, JSMath.max, JSMath.min.
  apply Rle_max_compat_l. apply Rle_min_compat_l.
  apply Rmult_le_compat_r; [lra |]. apply Rle_max_compat_l. lra.
Qed.

(** X5: whatever the progress value, also one outside [[0, 1]], the blend
    factor of the gifts lies in [[0, 1]], and it never decreases as progress
    grows. *)
Theorem heavy_factor_clamped_monotone :
  (forall t : R, 0 <= effectiveT (smoothT t) <= 1)
  /\ (forall a b : R,
        a <= b -> effectiveT (smoothT a) <= effectiveT (smoothT b)).
Proof.
  split.
  - intros t. apply effectiveT_range.
  - intros a b Hab. apply effectiveT_monotone. now apply smoothT_monotone.
Qed.

(** * Further properties of the instance passes *)

Lemma pass_loop (ref : Store.t -> option InstancedMesh.t)
    (M : nat -> Matrix4.t) (J : nat -> Store.t -> Prop)
    (body : nat -> Store.t -> Store.t)
    (s0 : Store.t) (mesh0 : InstancedMesh.t) (n : nat) :
  ref s0 = Some mesh0 ->
  J 0%nat s0 ->
  (forall (i : nat) (s : Store.t) (mesh : InstancedMesh.t),
      J i s -> Store.data s = Store.data s0 -> ref s = Some mesh ->
      J (S i) (body i s)
      /\ Store.data (body i s) = Store.data s0
      /\ ref (body i s) = Some (InstancedMesh.setMatrixAt i (M i) mesh)) ->
  pass_inv ref M s0 mesh0 n (for_each n body s0)
  /\ J n (for_each n body s0).
Proof.
  intros Hmesh0 HJ0 Hbody.
  apply (for_each_inv (fun k s => pass_inv ref M s0 mesh0 k s /\ J k s)).
  - split; [| exact HJ0]. split; [reflexivity |].
    exists mesh0. repeat split; try reflexivity; try exact Hmesh0.
    intros i Hi. lia.
  - intros k s _ [(Hdata & mesh & Hmesh & Hflag & Hlen & Hdone & Hrest) HJ].
    destruct (Hbody k s mesh HJ Hdata Hmesh) as (HJ' & Hdata' & Hmesh').
    split; [| exact HJ']. split; [exact Hdata' |].
    eexists. split; [exact Hmesh' |].
    unfold InstancedMesh.setMatrixAt.
    cbn [InstancedMesh.instanceMatrix InstancedMesh.needsUpdate].
    rewrite length_insert.
    split; [exact Hflag |]. split; [exact Hlen |]. split.
    + intros i Hi Hbound.
      destruct (Nat.eq_dec i k) as [-> | Hne].
      * now rewrite list_lookup_insert_eq by lia.
      * rewrite list_lookup_insert_ne by lia. apply Hdone; [lia | exact Hbound].
    + intros i Hi. rewrite list_lookup_insert_ne by lia. apply Hrest. lia.
Qed.

Lemma ornament_frame_effect (e t sm : R) (i : nat) (s : Store.t)
    (mesh : InstancedMesh.t) :
  Store.ornamentRef s = Some mesh ->
  Object3D.rotation (Store.dummy (ornament_frame e t sm i s))
  = Object3D.rotation (Store.dummy s)
  /\ Store.ornamentRef (ornament_frame e t sm i s)
     = Some (InstancedMesh.setMatrixAt i
               (Matrix4.compose (ornament_position (Store.data s) e t sm i)
                  (Object3D.rotation (Store.dummy s)) (Vector3.mk 1 1 1))
               mesh).
Proof.
  intros Hmesh. unfold ornament_frame, ornament_position. cbv zeta.
  destruct (Rlt_dec t 0.99);
    cbn [Store.ornamentRef Store.set_dummy Store.set_currentVec
         Store.set_vec3Tree Store.set_vec3Scatter Store.dummy
         Store.set_ornamentRef Store.data Store.vec3Scatter Store.vec3Tree
         Store.currentVec];
    rewrite Hmesh; split; reflexivity.
Qed.

Lemma gift_frame_effect (e t sm : R) (i : nat) (s : Store.t)
    (mesh : InstancedMesh.t) :
  Store.giftsRef s = Some mesh ->
  Object3D.rotation (Store.dummy (gift_frame e t sm i s))
  = gift_rotation (Store.data s) e t i
  /\ Store.giftsRef (gift_frame e t sm i s)
     = Some (InstancedMesh.setMatrixAt i
               (Matrix4.compose (gift_position (Store.data s) e t sm i)
                  (gift_rotation (Store.data s) e t i)
                  (Vector3.mk 0.25 0.25 0.25))
               mesh).
Proof.
  intros Hmesh. unfold gift_frame, gift_position, gift_rotation. cbv zeta.
  destruct (Rlt_dec t 0.99);
    cbn [Store.giftsRef Store.set_dummy Store.set_currentVec
         Store.set_vec3Tree Store.set_vec3Scatter Store.dummy
         Store.set_giftsRef Store.data Store.vec3Scatter Store.vec3Tree
         Store.currentVec];
    rewrite Hmesh; split; reflexivity.
Qed.

Lemma gift_frame_ornamentRef (e t sm : R) (i : nat) (s : Store.t) :
  Store.ornamentRef (gift_frame e t sm i s) = Store.ornamentRef s.
Proof. frame_step. Qed.

Lemma before_instances_fields (f : Frame.t) (s : Store.t) :
  Store.ornamentRef (before_instances f s) = Store.ornamentRef s
  /\ Store.giftsRef (before_instances f s) = Store.giftsRef s
  /\ Store.data (before_instances f s) = Store.data s
  /\ Store.dummy (before_instances f s) = Store.dummy s
  /\ Store.progress (before_instances f s) = Store.progress (useFrame f s).
Proof.
  rewrite useFrame_progress.
  unfold before_instances, update_foliage, update_progress, rotate_group.
  destruct (Store.groupRef s);
    cbn [Store.foliageMatRef Store.set_progress Store.set_groupRef];
    destruct (Store.foliageMatRef s); repeat split; reflexivity.
Qed.

Lemma useFrame_passes (f : Frame.t) (s : Store.t) :
  useFrame f s
  = let s3 := before_instances f s in
    let t := Store.progress s3 in
    update_gifts (Frame.elapsedTime f) t (smoothT t)
      (update_ornaments (Frame.elapsedTime f) t (smoothT t) s3).
Proof.
  unfold useFrame, before_instances. cbv zeta.
  unfold update_foliage.
  destruct (Store.foliageMatRef (update_progress f (rotate_group f s)));
    reflexivity.
Qed.

Lemma update_ornaments_effect (e t sm : R) (s : Store.t)
    (mesh : InstancedMesh.t) :
  Store.ornamentRef s = Some mesh ->
  let s' := update_ornaments e t sm s in
  Store.data s' = Store.data s
  /\ Object3D.rotation (Store.dummy s') = Object3D.rotation (Store.dummy s)
  /\ Store.giftsRef s' = Store.giftsRef s
  /\ exists mesh' : InstancedMesh.t,
       Store.ornamentRef s' = Some mesh'
       /\ InstancedMesh.needsUpdate mesh' = true
       /\ length (InstancedMesh.instanceMatrix mesh')
          = length (InstancedMesh.instanceMatrix mesh)
       /\ (forall i : nat,
             (i < OrnamentData.count (SceneData.ornamentData (Store.data s)))%nat ->
             (i < length (InstancedMesh.instanceMatrix mesh))%nat ->
             InstancedMesh.instanceMatrix mesh' !! i
             = Some (Matrix4.compose
                       (ornament_position (Store.data s) e t sm i)
                       (Object3D.rotation (Store.dummy s))
                       (Vector3.mk 1 1 1)))
       /\ (forall i : nat,
             (OrnamentData.count (SceneData.ornamentData (Store.data s)) <= i)%nat ->
             InstancedMesh.instanceMatrix mesh' !! i
             = InstancedMesh.instanceMatrix mesh !! i).
Proof.
  intros Hmesh s'. subst s'. unfold update_ornaments. rewrite Hmesh. cbv zeta.
  destruct (pass_loop Store.ornamentRef
              (fun i => Matrix4.compose
                          (ornament_position (Store.data s) e t sm i)
                          (Object3D.rotation (Store.dummy s))
                          (Vector3.mk 1 1 1))
              (fun _ s' =>
                 Object3D.rotation (Store.dummy s')
                 = Object3D.rotation (Store.dummy s)
                 /\ Store.giftsRef s' = Store.giftsRef s)
              (ornament_frame e t sm) s mesh
              (OrnamentData.count (SceneData.ornamentData (Store.data s)))
              Hmesh (conj eq_refl eq_refl))
    as [(Hdata & mesh' & Hmesh' & Hflag & Hlen & Hdone & Hrest) [Hrot Hgifts]].
  { intros i s1 mesh1 [Hrot1 Hgifts1] Hdata1 Hmesh1.
    destruct (ornament_frame_effect e t sm i s1 mesh1 Hmesh1) as [Hr Hm].
    rewrite ornament_frame_giftsRef, ornament_frame_data, Hr, Hm.
    rewrite Hdata1, Hrot1. repeat split; assumption. }
  cbn [Store.data Store.dummy Store.giftsRef Store.ornamentRef
       Store.set_ornamentRef].
  rewrite Hmesh'. cbn [option_map].
  repeat split; try assumption.
  exists (InstancedMesh.flag mesh'). repeat split; assumption.
Qed.

Lemma update_gifts_effect (e t sm : R) (s : Store.t)
    (mesh : InstancedMesh.t) :
  Store.giftsRef s = Some mesh ->
  let s' := update_gifts e t sm s in
  let n := GiftData.count (SceneData.giftData (Store.data s)) in
  Store.data s' = Store.data s
  /\ Store.ornamentRef s' = Store.ornamentRef s
  /\ ((0 < n)%nat ->
      Object3D.rotation (Store.dummy s')
      = gift_rotation (Store.data s) e t (n - 1))
  /\ exists mesh' : InstancedMesh.t,
       Store.giftsRef s' = Some mesh'
       /\ InstancedMesh.needsUpdate mesh' = true
       /\ length (InstancedMesh.instanceMatrix mesh')
          = length (InstancedMesh.instanceMatrix mesh)
       /\ (forall i : nat,
             (i < n)%nat ->
             (i < length (InstancedMesh.instanceMatrix mesh))%nat ->
             InstancedMesh.instanceMatrix mesh' !! i
             = Some (Matrix4.compose
                       (gift_position (Store.data s) e t sm i)
                       (gift_rotation (Store.data s) e t i)
                       (Vector3.mk 0.25 0.25 0.25)))
       /\ (forall i : nat,
             (n <= i)%nat ->
             InstancedMesh.instanceMatrix mesh' !! i
             = InstancedMesh.instanceMatrix mesh !! i).
Proof.
  intros Hmesh s' n. subst s' n. unfold update_gifts. rewrite Hmesh. cbv zeta.
  destruct (pass_loop Store.giftsRef
              (fun i => Matrix4.compose
                          (gift_position (Store.data s) e t sm i)
                          (gift_rotation (Store.data s) e t i)
                          (Vector3.mk 0.25 0.25 0.25))
              (fun k s' =>
                 ((0 < k)%nat ->
                  Object3D.rotation (Store.dummy s')
                  = gift_rotation (Store.data s) e t (k - 1))
                 /\ Store.ornamentRef s' = Store.ornamentRef s)
              (gift_frame e t sm) s mesh
              (GiftData.count (SceneData.giftData (Store.data s)))
              Hmesh (conj (fun H => match Nat.lt_irrefl 0 H with end) eq_refl))
    as [(Hdata & mesh' & Hmesh' & Hflag & Hlen & Hdone & Hrest) [Hrot Horn]].
  { intros i s1 mesh1 [Hrot1 Horn1] Hdata1 Hmesh1.
    destruct (gift_frame_effect e t sm i s1 mesh1 Hmesh1) as [Hr Hm].
    rewrite gift_frame_ornamentRef, gift_frame_data, Hr, Hm.
    rewrite Hdata1. replace (S i - 1)%nat with i by lia.
    repeat split; try assumption. }
  cbn [Store.data Store.dummy Store.giftsRef Store.ornamentRef
       Store.set_giftsRef].
  rewrite Hmesh'. cbn [option_map].
  repeat split; try assumption.
  exists (InstancedMesh.flag mesh'). repeat split; assumption.
Qed.

Lemma useFrame_ornament_matrix (f : Frame.t) (s : Store.t)
    (mesh : InstancedMesh.t) :
  Store.ornamentRef s = Some mesh ->
  let t := Store.progress (useFrame f s) in
  exists mesh' : InstancedMesh.t,
    Store.ornamentRef (useFrame f s) = Some mesh'
    /\ InstancedMesh.needsUpdate mesh' = true
    /\ length (InstancedMesh.instanceMatrix mesh')
       = length (InstancedMesh.instanceMatrix mesh)
    /\ forall i : nat,
         (i < OrnamentData.count (SceneData.ornamentData (Store.data s)))%nat ->
         (i < length (InstancedMesh.instanceMatrix mesh))%nat ->
         InstancedMesh.instanceMatrix mesh' !! i
         = Some (Matrix4.compose
                   (ornament_position (Store.data s) (Frame.elapsedTime f) t
                      (smoothT t) i)
                   (Object3D.rotation (Store.dummy s))
                   (Vector3.mk 1 1 1)).
Proof.
  intros Hmesh t.
  destruct (before_instances_fields f s) as (Horn & Hgifts & Hdata & Hdummy & Hprog).
  fold t in Hprog. clearbody t.
  rewrite useFrame_passes. cbv zeta. rewrite Hprog.
  rewrite <- Horn in Hmesh.
  destruct (update_ornaments_effect (Frame.elapsedTime f) t (smoothT t)
              (before_instances f s) mesh Hmesh)
    as (Hd & Hr & Hg & mesh' & Hmesh' & Hflag & Hlen & Hdone & _).
  rewrite Hdata, Hdummy in *.
  exists mesh'. split.
  - rewrite (update_gifts_preserves Store.ornamentRef)
      by (intros; try apply gift_frame_ornamentRef; reflexivity).
    exact Hmesh'.
  - repeat split; assumption.
Qed.

Lemma useFrame_gift_matrix (f : Frame.t) (s : Store.t)
    (mesh : InstancedMesh.t) :
  Store.giftsRef s = Some mesh ->
  let t := Store.progress (useFrame f s) in
  let n := GiftData.count (SceneData.giftData (Store.data s)) in
  ((0 < n)%nat ->
   Object3D.rotation (Store.dummy (useFrame f s))
   = gift_rotation (Store.data s) (Frame.elapsedTime f) t (n - 1))
  /\ exists mesh' : InstancedMesh.t,
       Store.giftsRef (useFrame f s) = Some mesh'
       /\ InstancedMesh.needsUpdate mesh' = true
       /\ length (InstancedMesh.instanceMatrix mesh')
          = length (InstancedMesh.instanceMatrix mesh)
       /\ forall i : nat,
            (i < n)%nat ->
            (i < length (InstancedMesh.instanceMatrix mesh))%nat ->
            InstancedMesh.instanceMatrix mesh' !! i
            = Some (Matrix4.compose
                      (gift_position (Store.data s) (Frame.elapsedTime f) t
                         (smoothT t) i)
                      (gift_rotation (Store.data s) (Frame.elapsedTime f) t i)
                      (Vector3.mk 0.25 0.25 0.25)).
Proof.
  intros Hmesh t n. subst n.
  destruct (before_instances_fields f s) as (_ & _ & _ & _ & Hprog).
  fold t in Hprog. clearbody t.
  rewrite useFrame_passes. cbv zeta. rewrite Hprog.
  assert (Hmesh4 : Store.giftsRef
                     (update_ornaments (Frame.elapsedTime f) t (smoothT t)
                        (before_instances f s)) = Some mesh).
  { unfold before_instances. now rewrite before_gifts_giftsRef. }
  assert (Hdata4 : Store.data
                     (update_ornaments (Frame.elapsedTime f) t (smoothT t)
                        (before_instances f s)) = Store.data s).
  { unfold before_instances. apply before_gifts_data. }
  destruct (update_gifts_effect (Frame.elapsedTime f) t (smoothT t) _ mesh
              Hmesh4)
    as (_ & _ & Hrot & mesh' & Hmesh' & Hflag & Hlen & Hdone & _).
  rewrite Hdata4 in *.
  split; [exact Hrot |].
  exists mesh'. repeat split; assumption.
Qed.

Lemma lerpVectors_one (a b : Vector3.t) : Vector3.lerpVectors a b 1 = b.
Proof.
  destruct a, b. unfold Vector3.lerpVectors. cbn. f_equal; ring.
Qed.

Lemma lerpVectors_short (a b : Vector3.t) :
  Vector3.lerpVectors a b 0.99 = b -> a = b.
Proof.
  destruct a as [ax ay az], b as [bx b_y bz].
  unfold Vector3.lerpVectors. cbn. intros Heq.
  injection Heq as Hx Hy Hz. f_equal; lra.
Qed.

Lemma generate_ornament_count (src : RandomSource) :
  OrnamentData.count (SceneData.ornamentData (fst (generate src))) = 90%nat.
Proof.
  unfold generate, generateOrnaments. rewrite !bind_run. unfold ret.
  cbn [fst SceneData.ornamentData OrnamentData.count].
  apply ornament_loops_count.
Qed.

Lemma mounted_ornaments :
  Store.ornamentRef mounted = Some (InstancedMesh.new 90)
  /\ OrnamentData.count (SceneData.ornamentData (Store.data mounted)) = 90%nat
  /\ length (InstancedMesh.instanceMatrix (InstancedMesh.new 90)) = 90%nat.
Proof.
  unfold mounted, Store.mount.
  cbn [Store.ornamentRef Store.data].
  rewrite generate_ornament_count.
  split; [reflexivity |]. split; [reflexivity | apply length_replicate].
Qed.

Lemma mounted_gifts :
  Store.giftsRef mounted = Some (InstancedMesh.new 25)
  /\ GiftData.count (SceneData.giftData (Store.data mounted)) = 25%nat
  /\ length (InstancedMesh.instanceMatrix (InstancedMesh.new 25)) = 25%nat.
Proof.
  unfold mounted, Store.mount.
  cbn [Store.giftsRef Store.data].
  rewrite generate_gift_count.
  split; [reflexivity |]. split; [reflexivity | apply length_replicate].
Qed.

Lemma mounted_steady_progress (e d : R) :
  Store.progress (useFrame (Frame.mk tree_config e d) mounted) = 1.
Proof.
  rewrite useFrame_progress. change (Store.progress mounted) with 1.
  unfold MathUtils.lerp, targetProgress. cbn. lra.
Qed.

Lemma mounted_half_progress (e : R) :
  Store.progress (useFrame (Frame.mk scattered_config e (1 / 4)) mounted)
  = 1 / 2.
Proof.
  rewrite useFrame_progress. change (Store.progress mounted) with 1.
  unfold MathUtils.lerp, targetProgress. cbn. lra.
Qed.

(** X6: in a frame whose progress value is at least 0.99, ornament [i] is
    drawn at the plain interpolation between its scatter and tree
    positions, at scale 1; when progress is exactly 1 that is its tree
    position. *)
Theorem ornaments_at_rest
    (f : Frame.t) (s : Store.t) (mesh : InstancedMesh.t) (i : nat) :
  Store.ornamentRef s = Some mesh ->
  (i < OrnamentData.count (SceneData.ornamentData (Store.data s)))%nat ->
  (i < length (InstancedMesh.instanceMatrix mesh))%nat ->
  0.99 <= Store.progress (useFrame f s) ->
  let od := SceneData.ornamentData (Store.data s) in
  let t := Store.progress (useFrame f s) in
  exists (mesh' : InstancedMesh.t) (m : Matrix4.t),
    Store.ornamentRef (useFrame f s) = Some mesh'
    /\ InstancedMesh.instanceMatrix mesh' !! i = Some m
    /\ Matrix4.position m
       = Vector3.lerpVectors (read3 (OrnamentData.scatter od) i)
                             (read3 (OrnamentData.tree od) i) (smoothT t)
    /\ Matrix4.scale m = Vector3.mk 1 1 1
    /\ (t = 1 -> Matrix4.position m = read3 (OrnamentData.tree od) i).
Proof.
  intros Hmesh Hcount Hbound Hrest od t.
  destruct (useFrame_ornament_matrix f s mesh Hmesh)
    as (mesh' & Hmesh' & _ & _ & Hdone).
  fold t in Hdone. eexists mesh', _.
  split; [exact Hmesh' |]. split; [exact (Hdone i Hcount Hbound) |].
  cbn [Matrix4.position Matrix4.scale].
  unfold ornament_position. cbv zeta.
  destruct (Rlt_dec t 0.99) as [Hlow | _]; [subst t; lra |].
  fold od. repeat split.
  intros Hone. rewrite Hone, smoothT_one. apply lerpVectors_one.
Qed.

Lemma ornaments_at_rest_witness :
  let f := Frame.mk tree_config 0 (1 / 60) in
  let od := SceneData.ornamentData (Store.data mounted) in
  let t := Store.progress (useFrame f mounted) in
  exists (mesh' : InstancedMesh.t) (m : Matrix4.t),
    Store.ornamentRef (useFrame f mounted) = Some mesh'
    /\ InstancedMesh.instanceMatrix mesh' !! 89%nat = Some m
    /\ Matrix4.position m
       = Vector3.lerpVectors (read3 (OrnamentData.scatter od) 89)
                             (read3 (OrnamentData.tree od) 89) (smoothT t)
    /\ Matrix4.scale m = Vector3.mk 1 1 1
    /\ (t = 1 -> Matrix4.position m = read3 (OrnamentData.tree od) 89).
Proof.
  destruct mounted_ornaments as (Href & Hcount & Hlen).
  apply (ornaments_at_rest (Frame.mk tree_config 0 (1 / 60)) mounted
           (InstancedMesh.new 90) 89).
  - exact Href.
  - rewrite Hcount. lia.
  - rewrite Hlen. lia.
  - rewrite mounted_steady_progress. lra.
Defined.

(** X7: in a frame whose progress value is exactly 1, gift [i] is drawn
    at scale 0.25 at the point 99 percent of the way from its scatter
    position to its tree position, which is the tree position only when the
    two coincide. *)
Theorem gifts_stop_short
    (f : Frame.t) (s : Store.t) (mesh : InstancedMesh.t) (i : nat) :
  Store.giftsRef s = Some mesh ->
  (i < GiftData.count (SceneData.giftData (Store.data s)))%nat ->
  (i < length (InstancedMesh.instanceMatrix mesh))%nat ->
  Store.progress (useFrame f s) = 1 ->
  let gd := SceneData.giftData (Store.data s) in
  exists (mesh' : InstancedMesh.t) (m : Matrix4.t),
    Store.giftsRef (useFrame f s) = Some mesh'
    /\ InstancedMesh.instanceMatrix mesh' !! i = Some m
    /\ Matrix4.position m
       = Vector3.lerpVectors (read3 (GiftData.scatter gd) i)
                             (read3 (GiftData.tree gd) i) 0.99
    /\ Matrix4.scale m = Vector3.mk 0.25 0.25 0.25
    /\ (Matrix4.position m = read3 (GiftData.tree gd) i ->
        read3 (GiftData.scatter gd) i = read3 (GiftData.tree gd) i).
Proof.
  intros Hmesh Hcount Hbound Hone gd.
  destruct (useFrame_gift_matrix f s mesh Hmesh)
    as (_ & mesh' & Hmesh' & _ & _ & Hdone).
  rewrite Hone in Hdone. eexists mesh', _.
  split; [exact Hmesh' |]. split; [exact (Hdone i Hcount Hbound) |].
  cbn [Matrix4.position Matrix4.scale].
  unfold gift_position. cbv zeta.
  destruct (Rlt_dec 1 0.99) as [Hlow | _]; [lra |].
  rewrite smoothT_one.
  destruct (effectiveT_lag 1 ltac:(lra)) as (_ & _ & _ & Hval & _).
  rewrite Hval by lra. replace ((1 - 0.1) * 1.1) with 0.99 by lra.
  fold gd. repeat split. apply lerpVectors_short.
Qed.

Lemma gifts_stop_short_witness :
  let f := Frame.mk tree_config 0 (1 / 60) in
  let gd := SceneData.giftData (Store.data mounted) in
  exists (mesh' : InstancedMesh.t) (m : Matrix4.t),
    Store.giftsRef (useFrame f mounted) = Some mesh'
    /\ InstancedMesh.instanceMatrix mesh' !! 0%nat = Some m
    /\ Matrix4.position m
       = Vector3.lerpVectors (read3 (GiftData.scatter gd) 0)
                             (read3 (GiftData.tree gd) 0) 0.99
    /\ Matrix4.scale m = Vector3.mk 0.25 0.25 0.25
    /\ (Matrix4.position m = read3 (GiftData.tree gd) 0 ->
        read3 (GiftData.scatter gd) 0 = read3 (GiftData.tree gd) 0).
Proof.
  destruct mounted_gifts as (Href & Hcount & Hlen).
  apply (gifts_stop_short (Frame.mk tree_config 0 (1 / 60)) mounted
           (InstancedMesh.new 25) 0).
  - exact Href.
  - rewrite Hcount. lia.
  - rewrite Hlen. lia.
  - apply mounted_steady_progress.
Defined.

Lemma float_offset_bound (phase amp fade : R) :
  0 <= amp -> 0 <= fade ->
  Rabs (sin phase * amp * fade) <= amp * fade.
Proof.
  intros Hamp Hfade.
  rewrite !Rabs_mult, (Rabs_pos_eq amp), (Rabs_pos_eq fade) by assumption.
  assert (Hsin : Rabs (sin phase) <= 1).
  { apply Rabs_le. pose proof (SIN_bound phase). lra. }
  pose proof (Rabs_pos (sin phase)).
  assert (Hprod : 0 <= amp * fade) by now apply Rmult_le_pos.
  assert (0 <= (1 - Rabs (sin phase)) * (amp * fade))
    by (apply Rmult_le_pos; lra).
  lra.
Qed.

(** X8: in a frame whose progress value [t] is in [[0, 0.99)], ornament
    [i] is drawn at the interpolated point with the same x and z, and with
    a height that differs from the interpolated height by at most
    [0.1 * (1 - smoothT t)], hence by at most 0.1. *)
Theorem ornaments_float_bound
    (f : Frame.t) (s : Store.t) (mesh : InstancedMesh.t) (i : nat) :
  Store.ornamentRef s = Some mesh ->
  (i < OrnamentData.count (SceneData.ornamentData (Store.data s)))%nat ->
  (i < length (InstancedMesh.instanceMatrix mesh))%nat ->
  0 <= Store.progress (useFrame f s) < 0.99 ->
  let od := SceneData.ornamentData (Store.data s) in
  let t := Store.progress (useFrame f s) in
  let base :=
    Vector3.lerpVectors (read3 (OrnamentData.scatter od) i)
                        (read3 (OrnamentData.tree od) i) (smoothT t) in
  exists (mesh' : InstancedMesh.t) (m : Matrix4.t),
    Store.ornamentRef (useFrame f s) = Some mesh'
    /\ InstancedMesh.instanceMatrix mesh' !! i = Some m
    /\ Vector3.x (Matrix4.position m) = Vector3.x base
    /\ Vector3.z (Matrix4.position m) = Vector3.z base
    /\ Rabs (Vector3.y (Matrix4.position m) - Vector3.y base)
       <= 0.1 * (1 - smoothT t)
    /\ 0.1 * (1 - smoothT t) <= 0.1.
Proof.
  intros Hmesh Hcount Hbound Ht od t base.
  destruct (useFrame_ornament_matrix f s mesh Hmesh)
    as (mesh' & Hmesh' & _ & _ & Hdone).
  fold t in Hdone, Ht. eexists mesh', _.
  split; [exact Hmesh' |]. split; [exact (Hdone i Hcount Hbound) |].
  cbn [Matrix4.position].
  unfold ornament_position. cbv zeta.
  destruct (Rlt_dec t 0.99) as [_ | Hhigh]; [| lra].
  fold od. fold base. unfold add_y. cbn [Vector3.x Vector3.y Vector3.z].
  destruct (smoothT_unit t ltac:(lra)) as [Hlo Hhi].
  split; [reflexivity |]. split; [reflexivity |]. split; [| lra].
  replace (Vector3.y base
           + sin (Frame.elapsedTime f * 2.0 + INR i) * 0.1 * (1 - smoothT t)
           - Vector3.y base)
    with (sin (Frame.elapsedTime f * 2.0 + INR i) * 0.1 * (1 - smoothT t))
    by ring.
  apply float_offset_bound; lra.
Qed.

Lemma ornaments_float_bound_witness :
  let f := Frame.mk scattered_config 3 (1 / 4) in
  let od := SceneData.ornamentData (Store.data mounted) in
  let t := Store.progress (useFrame f mounted) in
  let base :=
    Vector3.lerpVectors (read3 (OrnamentData.scatter od) 7)
                        (read3 (OrnamentData.tree od) 7) (smoothT t) in
  exists (mesh' : InstancedMesh.t) (m : Matrix4.t),
    Store.ornamentRef (useFrame f mounted) = Some mesh'
    /\ InstancedMesh.instanceMatrix mesh' !! 7%nat = Some m
    /\ Vector3.x (Matrix4.position m) = Vector3.x base
    /\ Vector3.z (Matrix4.position m) = Vector3.z base
    /\ Rabs (Vector3.y (Matrix4.position m) - Vector3.y base)
       <= 0.1 * (1 - smoothT t)
    /\ 0.1 * (1 - smoothT t) <= 0.1.
Proof.
  destruct mounted_ornaments as (Href & Hcount & Hlen).
  apply (ornaments_float_bound (Frame.mk scattered_config 3 (1 / 4)) mounted
           (InstancedMesh.new 90) 7).
  - exact Href.
  - rewrite Hcount. lia.
  - rewrite Hlen. lia.
  - rewrite mounted_half_progress. lra.
Defined.

(** X9: in a frame whose progress value [t] is in [[0, 0.99)], gift [i]
    is drawn turned by its seeded angles, the first two advanced by
    [0.1 * elapsedTime] and the third as seeded, at the lagged
    interpolation point with the same x and z and a height within
    [0.05 * (1 - effectiveT (smoothT t))], hence within 0.05, of it. *)
Theorem gifts_in_transit
    (f : Frame.t) (s : Store.t) (mesh : InstancedMesh.t) (i : nat) :
  Store.giftsRef s = Some mesh ->
  (i < GiftData.count (SceneData.giftData (Store.data s)))%nat ->
  (i < length (InstancedMesh.instanceMatrix mesh))%nat ->
  0 <= Store.progress (useFrame f s) < 0.99 ->
  let gd := SceneData.giftData (Store.data s) in
  let t := Store.progress (useFrame f s) in
  let lag := effectiveT (smoothT t) in
  let base :=
    Vector3.lerpVectors (read3 (GiftData.scatter gd) i)
                        (read3 (GiftData.tree gd) i) lag in
  exists (mesh' : InstancedMesh.t) (m : Matrix4.t),
    Store.giftsRef (useFrame f s) = Some mesh'
    /\ InstancedMesh.instanceMatrix mesh' !! i = Some m
    /\ Matrix4.rotation m
       = Euler.mk (get (GiftData.rot gd) (i * 3) + Frame.elapsedTime f * 0.1)
                  (get (GiftData.rot gd) (i * 3 + 1)
                   + Frame.elapsedTime f * 0.1)
                  (get (GiftData.rot gd) (i * 3 + 2))
    /\ Vector3.x (Matrix4.position m) = Vector3.x base
    /\ Vector3.z (Matrix4.position m) = Vector3.z base
    /\ Rabs (Vector3.y (Matrix4.position m) - Vector3.y base)
       <= 0.05 * (1 - lag)
    /\ 0.05 * (1 - lag) <= 0.05.
Proof.
  intros Hmesh Hcount Hbound Ht gd t lag base.
  destruct (useFrame_gift_matrix f s mesh Hmesh)
    as (_ & mesh' & Hmesh' & _ & _ & Hdone).
  fold t in Hdone, Ht. eexists mesh', _.
  split; [exact Hmesh' |]. split; [exact (Hdone i Hcount Hbound) |].
  cbn [Matrix4.position Matrix4.rotation].
  unfold gift_position, gift_rotation. cbv zeta.
  destruct (Rlt_dec t 0.99) as [_ | Hhigh]; [| lra].
  fold gd. fold lag. fold base. unfold add_y.
  cbn [Vector3.x Vector3.y Vector3.z].
  destruct (effectiveT_range (smoothT t)) as [Hlo Hhi]. fold lag in Hlo, Hhi.
  split; [reflexivity |]. split; [reflexivity |]. split; [reflexivity |].
  split; [| lra].
  replace (Vector3.y base
           + sin (Frame.elapsedTime f * 0.5 + INR i) * 0.05 * (1 - lag)
           - Vector3.y base)
    with (sin (Frame.elapsedTime f * 0.5 + INR i) * 0.05 * (1 - lag))
    by ring.
  apply float_offset_bound; lra.
Qed.

Lemma gifts_in_transit_witness :
  let f := Frame.mk scattered_config 3 (1 / 4) in
  let gd := SceneData.giftData (Store.data mounted) in
  let t := Store.progress (useFrame f mounted) in
  let lag := effectiveT (smoothT t) in
  let base :=
    Vector3.lerpVectors (read3 (GiftData.scatter gd) 24)
                        (read3 (GiftData.tree gd) 24) lag in
  exists (mesh' : InstancedMesh.t) (m : Matrix4.t),
    Store.giftsRef (useFrame f mounted) = Some mesh'
    /\ InstancedMesh.instanceMatrix mesh' !! 24%nat = Some m
    /\ Matrix4.rotation m
       = Euler.mk (get (GiftData.rot gd) (24 * 3) + 3 * 0.1)
                  (get (GiftData.rot gd) (24 * 3 + 1) + 3 * 0.1)
                  (get (GiftData.rot gd) (24 * 3 + 2))
    /\ Vector3.x (Matrix4.position m) = Vector3.x base
    /\ Vector3.z (Matrix4.position m) = Vector3.z base
    /\ Rabs (Vector3.y (Matrix4.position m) - Vector3.y base)
       <= 0.05 * (1 - lag)
    /\ 0.05 * (1 - lag) <= 0.05.
Proof.
  destruct mounted_gifts as (Href & Hcount & Hlen).
  apply (gifts_in_transit (Frame.mk scattered_config 3 (1 / 4)) mounted
           (InstancedMesh.new 25) 24).
  - exact Href.
  - rewrite Hcount. lia.
  - rewrite Hlen. lia.
  - rewrite mounted_half_progress. lra.
Defined.

(** X10: the ornament pass never sets the orientation of the scratch
    object it shares with the gift pass: in a frame every ornament is drawn
    with the orientation the scratch object had when the frame began, which
    from the second frame on is the orientation the previous frame gave its
    last gift. *)
Theorem ornaments_wear_last_gift_rotation
    (f1 f2 : Frame.t) (s : Store.t) (omesh gmesh : InstancedMesh.t)
    (i : nat) :
  Store.ornamentRef s = Some omesh ->
  Store.giftsRef s = Some gmesh ->
  (i < OrnamentData.count (SceneData.ornamentData (Store.data s)))%nat ->
  (i < length (InstancedMesh.instanceMatrix omesh))%nat ->
  (0 < GiftData.count (SceneData.giftData (Store.data s)))%nat ->
  (exists (mesh1 : InstancedMesh.t) (m1 : Matrix4.t),
      Store.ornamentRef (useFrame f1 s) = Some mesh1
      /\ InstancedMesh.instanceMatrix mesh1 !! i = Some m1
      /\ Matrix4.rotation m1 = Object3D.rotation (Store.dummy s))
  /\ (exists (mesh2 : InstancedMesh.t) (m2 : Matrix4.t),
         Store.ornamentRef (useFrame f2 (useFrame f1 s)) = Some mesh2
         /\ InstancedMesh.instanceMatrix mesh2 !! i = Some m2
         /\ Matrix4.rotation m2
            = gift_rotation (Store.data s) (Frame.elapsedTime f1)
                (Store.progress (useFrame f1 s))
                (GiftData.count (SceneData.giftData (Store.data s)) - 1)).
Proof.
  intros Hornaments Hgifts Hcount Hbound Hsome.
  destruct (useFrame_ornament_matrix f1 s omesh Hornaments)
    as (mesh1 & Hmesh1 & _ & Hlen1 & Hdone1).
  destruct (useFrame_gift_matrix f1 s gmesh Hgifts) as (Hrot & _).
  split.
  - eexists mesh1, _. split; [exact Hmesh1 |].
    split; [exact (Hdone1 i Hcount Hbound) | reflexivity].
  - destruct (useFrame_ornament_matrix f2 (useFrame f1 s) mesh1 Hmesh1)
      as (mesh2 & Hmesh2 & _ & _ & Hdone2).
    rewrite useFrame_data in Hdone2.
    eexists mesh2, _. split; [exact Hmesh2 |].
    split; [apply Hdone2; [exact Hcount | rewrite Hlen1; exact Hbound] |].
    cbn [Matrix4.rotation]. apply Hrot. exact Hsome.
Qed.

Lemma ornaments_wear_last_gift_rotation_witness :
  let f1 := Frame.mk scattered_config 3 (1 / 4) in
  let f2 := Frame.mk scattered_config (13 / 4) (1 / 60) in
  (exists (mesh1 : InstancedMesh.t) (m1 : Matrix4.t),
      Store.ornamentRef (useFrame f1 mounted) = Some mesh1
      /\ InstancedMesh.instanceMatrix mesh1 !! 0%nat = Some m1
      /\ Matrix4.rotation m1 = Object3D.rotation (Store.dummy mounted))
  /\ (exists (mesh2 : InstancedMesh.t) (m2 : Matrix4.t),
         Store.ornamentRef (useFrame f2 (useFrame f1 mounted)) = Some mesh2
         /\ InstancedMesh.instanceMatrix mesh2 !! 0%nat = Some m2
         /\ Matrix4.rotation m2
            = gift_rotation (Store.data mounted) 3
                (Store.progress (useFrame f1 mounted))
                (GiftData.count (SceneData.giftData (Store.data mounted)) - 1)).
Proof.
  destruct mounted_ornaments as (Href & Hcount & Hlen).
  destruct mounted_gifts as (Hgref & Hgcount & _).
  apply (ornaments_wear_last_gift_rotation
           (Frame.mk scattered_config 3 (1 / 4))
           (Frame.mk scattered_config (13 / 4) (1 / 60))
           mounted (InstancedMesh.new 90) (InstancedMesh.new 25) 0).
  - exact Href.
  - exact Hgref.
  - rewrite Hcount. lia.
  - rewrite Hlen. lia.
  - rewrite Hgcount. lia.
Defined.

Lemma useFrame_ornamentRef_none (f : Frame.t) (s : Store.t) :
  Store.ornamentRef s = None -> Store.ornamentRef (useFrame f s) = None.
Proof.
  intros Hnone.
  destruct (before_instances_fields f s) as (Horn & _).
  rewrite useFrame_passes. cbv zeta.
  rewrite (update_gifts_preserves Store.ornamentRef)
    by (intros; try apply gift_frame_ornamentRef; reflexivity).
  unfold update_ornaments. rewrite Horn, Hnone. now rewrite Horn.
Qed.

Lemma useFrame_giftsRef_none (f : Frame.t) (s : Store.t) :
  Store.giftsRef s = None -> Store.giftsRef (useFrame f s) = None.
Proof.
  intros Hnone.
  rewrite useFrame_passes. cbv zeta.
  unfold update_gifts, before_instances.
  rewrite before_gifts_giftsRef, Hnone. now rewrite before_gifts_giftsRef.
Qed.

Lemma mesh_size_one_frame (f : Frame.t) (s : Store.t) :
  option_map (fun mesh => length (InstancedMesh.instanceMatrix mesh))
    (Store.ornamentRef (useFrame f s))
  = option_map (fun mesh => length (InstancedMesh.instanceMatrix mesh))
      (Store.ornamentRef s)
  /\ option_map (fun mesh => length (InstancedMesh.instanceMatrix mesh))
       (Store.giftsRef (useFrame f s))
     = option_map (fun mesh => length (InstancedMesh.instanceMatrix mesh))
         (Store.giftsRef s).
Proof.
  split.
  - destruct (Store.ornamentRef s) as [mesh |] eqn:Href.
    + destruct (useFrame_ornament_matrix f s mesh Href)
        as (mesh' & -> & _ & Hlen & _).
      cbn. now rewrite Hlen.
    + now rewrite useFrame_ornamentRef_none.
  - destruct (Store.giftsRef s) as [mesh |] eqn:Href.
    + destruct (useFrame_gift_matrix f s mesh Href)
        as (_ & mesh' & -> & _ & Hlen & _).
      cbn. now rewrite Hlen.
    + now rewrite useFrame_giftsRef_none.
Qed.

Lemma run_frames_mesh_sizes (frames : list Frame.t) :
  forall s : Store.t,
    option_map (fun mesh => length (InstancedMesh.instanceMatrix mesh))
      (Store.ornamentRef (run_frames frames s))
    = option_map (fun mesh => length (InstancedMesh.instanceMatrix mesh))
        (Store.ornamentRef s)
    /\ option_map (fun mesh => length (InstancedMesh.instanceMatrix mesh))
         (Store.giftsRef (run_frames frames s))
       = option_map (fun mesh => length (InstancedMesh.instanceMatrix mesh))
           (Store.giftsRef s).
Proof.
  induction frames as [| f rest IH]; intros s.
  - split; reflexivity.
  - rewrite run_frames_cons.
    destruct (IH (useFrame f s)) as [Ho Hg].
    destruct (mesh_size_one_frame f s) as [Ho1 Hg1].
    split; congruence.
Qed.

(** X11: no run of frames changes how many instance matrices the ornament
    mesh and the gift mesh hold, nor whether their refs are set. *)
Theorem instance_counts_kept (frames : list Frame.t) (s : Store.t) :
  option_map (fun mesh => length (InstancedMesh.instanceMatrix mesh))
    (Store.ornamentRef (run_frames frames s))
  = option_map (fun mesh => length (InstancedMesh.instanceMatrix mesh))
      (Store.ornamentRef s)
  /\ option_map (fun mesh => length (InstancedMesh.instanceMatrix mesh))
       (Store.giftsRef (run_frames frames s))
     = option_map (fun mesh => length (InstancedMesh.instanceMatrix mesh))
         (Store.giftsRef s).
Proof.
  destruct (run_frames_mesh_sizes frames s) as [Hornaments Hgifts].
  split; [exact Hornaments | exact Hgifts].
Qed.

Lemma progress_rests_on_target (frames : list Frame.t) (m : TreeMorphState) :
  forall s : Store.t,
    Store.progress s = targetProgress m ->
    Forall (fun f => TreeConfig.morphState (Frame.config f) = m) frames ->
    Store.progress (run_frames frames s) = targetProgress m.
Proof.
  induction frames as [| f rest IH]; intros s Hstart Hflag; [exact Hstart |].
  apply Forall_cons in Hflag as [Hf Hrest].
  rewrite run_frames_cons. apply IH; [| exact Hrest].
  rewrite useFrame_progress, Hf, Hstart. unfold MathUtils.lerp. ring.
Qed.



(** * Further properties of the generator *)

Section Yields.

Context (P : RandomSource -> Prop) (U : R -> Prop).
Hypothesis P_tail :
  forall src : RandomSource, P src -> P (fun n => src (S n)).
Hypothesis P_head : forall src : RandomSource, P src -> U (src 0%nat).

Lemma yields_ret {A : Type} (a : A) (post : A -> Prop) :
  post a -> yields P (ret a) post.
Proof using Type. intros Ha src Hsrc. now split. Qed.

Lemma yields_bind {A B : Type} (m : Rand A) (k : A -> Rand B)
    (mid : A -> Prop) (post : B -> Prop) :
  yields P m mid ->
  (forall a : A, mid a -> yields P (k a) post) ->
  yields P (bind m k) post.
Proof using Type.
  intros Hm Hk src Hsrc. rewrite bind_run.
  destruct (Hm src Hsrc) as [Hmid Hsrc'].
  now apply Hk.
Qed.

Lemma yields_conseq {A : Type} (m : Rand A) (post post' : A -> Prop) :
  yields P m post -> (forall a : A, post a -> post' a) -> yields P m post'.
Proof using Type.
  intros Hm Himp src Hsrc. destruct (Hm src Hsrc). split; auto.
Qed.

Lemma yields_random : yields P Math_random U.
Proof using P_tail P_head.
  intros src Hsrc. split; [now apply P_head | now apply P_tail].
Qed.

Lemma yields_randomInSphere (radius biasY : R) :
  yields P (randomInSphere radius biasY)
    (fun p =>
       exists w : R,
         U w
         /\ Vector3.distanceToSquared p (Vector3.mk 0 biasY 0)
            = (JSMath.cbrt w * radius) * (JSMath.cbrt w * radius)).
Proof using P_tail P_head.
  intros src Hsrc. rewrite randomInSphere_point, randomInSphere_source.
  split.
  - exists (src 2%nat). split.
    + apply (P_head (fun n => src (S (S n)))).
      apply (P_tail (fun n => src (S n))). now apply P_tail.
    + cbv zeta. apply sphere_point_distance.
  - apply (P_tail (fun n => src (S (S n)))).
    apply (P_tail (fun n => src (S n))). now apply P_tail.
Qed.

Lemma yields_forM_seq {St : Type} (Q : nat -> St -> Prop)
    (body : nat -> St -> Rand St) (n : nat) :
  forall (a : nat) (s : St),
    Q a s ->
    (forall (i : nat) (s' : St),
        (a <= i < a + n)%nat -> Q i s' -> yields P (body i s') (Q (S i))) ->
    yields P (forM (seq a n) body s) (Q (a + n)%nat).
Proof using Type.
  induction n as [| n IH]; intros a s Hstart Hstep; simpl.
  - apply yields_ret. now rewrite Nat.add_0_r.
  - replace (a + S n)%nat with (S a + n)%nat by lia.
    apply yields_bind with (mid := Q (S a)).
    + apply Hstep; [lia | exact Hstart].
    + intros s' Hs'. apply IH; [exact Hs' |].
      intros i s'' Hi. apply Hstep. lia.
Qed.

(** A loop whose body never takes its [break] under the invariant. *)
Lemma yields_forBreak_seq {St : Type} (Q : nat -> St -> Prop)
    (body : nat -> St -> Rand (Step St)) (n : nat) :
  forall (a : nat) (s : St),
    Q a s ->
    (forall (j : nat) (s' : St),
        (a <= j < a + n)%nat -> Q j s' ->
        yields P (body j s')
          (fun r => exists s'' : St, r = Continue s'' /\ Q (S j) s'')) ->
    yields P (forBreak (seq a n) body s) (Q (a + n)%nat).
Proof using Type.
  induction n as [| n IH]; intros a s Hstart Hstep; simpl.
  - apply yields_ret. now rewrite Nat.add_0_r.
  - replace (a + S n)%nat with (S a + n)%nat by lia.
    eapply yields_bind.
    + apply Hstep; [lia | exact Hstart].
    + intros r (s' & -> & Hs'). apply IH; [exact Hs' |].
      intros j s'' Hj. apply Hstep. lia.
Qed.

End Yields.

Lemma unit_draws_tail (src : RandomSource) :
  unit_draws src -> unit_draws (fun n => src (S n)).
Proof. intros Hsrc n. apply Hsrc. Qed.

Lemma unit_draws_head (src : RandomSource) :
  unit_draws src -> 0 <= src 0%nat < 1.
Proof. intros Hsrc. apply Hsrc. Qed.

Lemma unit_randomInSphere (radius biasY : R) :
  0 <= radius ->
  yields unit_draws (randomInSphere radius biasY)
    (fun p => Vector3.distanceTo p (Vector3.mk 0 biasY 0) <= radius).
Proof.
  intros Hradius.
  eapply yields_conseq.
  - apply (yields_randomInSphere unit_draws (fun u => 0 <= u < 1)
             unit_draws_tail unit_draws_head).
  - intros p (w & Hw & Hdist). unfold Vector3.distanceTo. rewrite Hdist.
    destruct (cbrt_unit w Hw) as [Hlo Hhi].
    fold (Rsqr (JSMath.cbrt w * radius)).
    rewrite sqrt_Rsqr by nra. nra.
Qed.

(** Buffer triples under the three stores of one element. *)
Lemma triple_at_write3_same (a : Float32Array) (i : nat) (p : Vector3.t) :
  (i * 3 + 2 < length a)%nat -> triple_at (write3 a i p) i p.
Proof.
  intros Hlen. unfold triple_at, write3.
  rewrite (list_lookup_insert_ne _ (i * 3 + 2) (i * 3)) by lia.
  rewrite (list_lookup_insert_ne _ (i * 3 + 1) (i * 3)) by lia.
  rewrite (list_lookup_insert_ne _ (i * 3 + 2) (i * 3 + 1)) by lia.
  rewrite !list_lookup_insert_eq by (rewrite ?length_insert; lia).
  repeat split.
Qed.

Lemma lookup_write3_other (a : Float32Array) (i : nat) (p : Vector3.t)
    (k : nat) :
  (k < i * 3 \/ i * 3 + 3 <= k)%nat -> write3 a i p !! k = a !! k.
Proof.
  intros Hk. unfold write3. now rewrite !list_lookup_insert_ne by lia.
Qed.

Lemma triple_at_write3_other (a : Float32Array) (i k : nat)
    (p q : Vector3.t) :
  k <> i -> triple_at a k q -> triple_at (write3 a i p) k q.
Proof.
  intros Hne (Hx & Hy & Hz). unfold triple_at.
  rewrite !lookup_write3_other by lia. now repeat split.
Qed.

Lemma length_write3 (a : Float32Array) (i : nat) (p : Vector3.t) :
  length (write3 a i p) = length a.
Proof. unfold write3. now rewrite !length_insert. Qed.

Lemma triple_at_read3 (a : Float32Array) (k : nat) (p : Vector3.t) :
  triple_at a k p -> read3 a k = p.
Proof.
  intros (Hx & Hy & Hz). unfold read3, get. rewrite Hx, Hy, Hz.
  now destruct p.
Qed.

Lemma unit_random : yields unit_draws Math_random (fun u => 0 <= u < 1).
Proof.
  apply (yields_random unit_draws (fun u => 0 <= u < 1)
           unit_draws_tail unit_draws_head).
Qed.

Lemma gift_body_seeded (i : nat) (st : GiftLoop.t) :
  (i < giftCount)%nat ->
  gift_seeded i st ->
  yields unit_draws (gift_body i st) (gift_seeded (S i)).
Proof.
  intros Hi (Hlen1 & Hlen2 & Hdone).
  unfold gift_body. cbv zeta.
  eapply yields_bind; [apply unit_randomInSphere; lra |].
  intros sPos HsPos.
  eapply yields_bind; [apply unit_random |]. intros rx Hrx.
  eapply yields_bind; [apply unit_random |]. intros ry Hry.
  eapply yields_bind; [apply unit_random |]. intros rz Hrz.
  apply yields_ret.
  change (gift_seeded (S i)
            (GiftLoop.mk (write3 (GiftLoop.gScatter st) i sPos)
               (write3 (GiftLoop.gTree st) i
                  (Vector3.mk (cos (gift_theta i) * gift_r i) (gift_y i)
                              (sin (gift_theta i) * gift_r i)))
               (write3 (GiftLoop.gRotation st) i
                  (Vector3.mk (rx * PI) (ry * PI) (rz * PI))))).
  unfold gift_seeded. cbn [GiftLoop.gScatter GiftLoop.gRotation].
  rewrite !length_write3.
  split; [exact Hlen1 |]. split; [exact Hlen2 |].
  intros k Hk.
  destruct (Nat.eq_dec k i) as [-> | Hne].
  - exists sPos, (Vector3.mk (rx * PI) (ry * PI) (rz * PI)).
    split; [apply triple_at_write3_same; lia |].
    split; [exact HsPos |].
    split; [apply triple_at_write3_same; lia |].
    pose proof PI_RGT_0. cbn [Vector3.x Vector3.y Vector3.z].
    repeat split; nra.
  - destruct (Hdone k ltac:(lia)) as (p & q & Hp & Hball & Hq & Hangles).
    exists p, q.
    split; [now apply triple_at_write3_other |].
    split; [exact Hball |].
    split; [now apply triple_at_write3_other | exact Hangles].
Qed.

Lemma gift_loop_seeded :
  yields unit_draws gift_loop (gift_seeded giftCount).
Proof.
  unfold gift_loop, loop_range.
  apply (yields_forM_seq unit_draws gift_seeded gift_body giftCount 0).
  - split; [apply length_replicate |]. split; [apply length_replicate |].
    intros k Hk. lia.
  - intros i st Hi. apply gift_body_seeded. lia.
Qed.

(** X12: under draws in [[0, 1)], every gift's scatter position lies in
    the closed ball of radius 5 about [(0, -1, 0)] and each of its three
    seeded angles lies in [[0, PI)]. *)
Theorem gift_scatter_and_seeds (src : RandomSource) (i : nat) :
  unit_draws src ->
  (i < giftCount)%nat ->
  let gd := fst (generateGifts src) in
  Vector3.distanceTo (read3 (GiftData.scatter gd) i) (Vector3.mk 0 (-1) 0)
  <= 5
  /\ 0 <= get (GiftData.rot gd) (i * 3) < PI
  /\ 0 <= get (GiftData.rot gd) (i * 3 + 1) < PI
  /\ 0 <= get (GiftData.rot gd) (i * 3 + 2) < PI.
Proof.
  intros Hsrc Hi gd. subst gd.
  unfold generateGifts. rewrite bind_run. unfold ret.
  cbn [fst GiftData.scatter GiftData.rot].
  destruct (gift_loop_seeded src Hsrc) as [(_ & _ & Hdone) _].
  destruct (Hdone i Hi) as (p & q & Hp & Hball & Hq & Hx & Hy & Hz).
  rewrite (triple_at_read3 _ _ _ Hp).
  destruct Hq as (Hqx & Hqy & Hqz). unfold get.
  rewrite Hqx, Hqy, Hqz. cbn [default].
  repeat split; first [exact Hball | apply Hx | apply Hy | apply Hz].
Qed.

Lemma gift_scatter_and_seeds_witness :
  let gd := fst (generateGifts half_draws) in
  Vector3.distanceTo (read3 (GiftData.scatter gd) 24) (Vector3.mk 0 (-1) 0)
  <= 5
  /\ 0 <= get (GiftData.rot gd) (24 * 3) < PI
  /\ 0 <= get (GiftData.rot gd) (24 * 3 + 1) < PI
  /\ 0 <= get (GiftData.rot gd) (24 * 3 + 2) < PI.
Proof.
  apply (gift_scatter_and_seeds half_draws 24).
  - exact half_draws_unit.
  - unfold giftCount. lia.
Defined.

Lemma gift_r_positive (i : nat) : (i < giftCount)%nat -> 0 < gift_r i.
Proof.
  intros Hi. unfold gift_r.
  replace (INR giftCount) with 25 by (unfold giftCount; simpl; lra).
  assert (0 <= INR i <= 24).
  { split; [apply pos_INR |].
    replace 24 with (INR 24) by (simpl; lra).
    apply le_INR. unfold giftCount in Hi. lia. }
  lra.
Qed.

(** X13: the gift spiral narrows as it climbs: gift [i] sits at the
    horizontal distance [2.4 * (1 - (i / 25) * 0.8)] from the axis, which
    stays positive, and of two gifts the later one is strictly higher and
    strictly closer to the axis. *)
Theorem gift_spiral_narrows (src : RandomSource) (i j : nat) :
  (i < j)%nat ->
  (j < giftCount)%nat ->
  let tree := GiftData.tree (fst (generateGifts src)) in
  let radius (p : Vector3.t) :=
    sqrt (Vector3.x p * Vector3.x p + Vector3.z p * Vector3.z p) in
  radius (read3 tree i) = 2.4 * (1 - INR i / 25 * 0.8)
  /\ 0 < radius (read3 tree j) < radius (read3 tree i)
  /\ Vector3.y (read3 tree i) < Vector3.y (read3 tree j).
Proof.
  intros Hij Hj tree radius.
  assert (Hradius : forall k : nat,
             (k < giftCount)%nat -> radius (read3 tree k) = gift_r k).
  { intros k Hk. subst radius tree. cbv beta.
    rewrite gift_tree_point by exact Hk. cbn [Vector3.x Vector3.z].
    replace (cos (gift_theta k) * gift_r k * (cos (gift_theta k) * gift_r k)
             + sin (gift_theta k) * gift_r k * (sin (gift_theta k) * gift_r k))
      with (((sin (gift_theta k))² + (cos (gift_theta k))²) * (gift_r k)²)
      by (unfold Rsqr; ring).
    rewrite sin2_cos2, Rmult_1_l.
    apply sqrt_Rsqr. left. now apply gift_r_positive. }
  rewrite !Hradius by lia.
  subst tree. rewrite !gift_tree_point by lia. cbn [Vector3.y].
  pose proof (gift_r_positive j Hj) as Hpos.
  assert (Hlt : INR i < INR j) by now apply lt_INR.
  unfold gift_r, gift_y in *.
  replace (INR giftCount) with 25 in * by (unfold giftCount; simpl; lra).
  repeat split; lra.
Qed.

Lemma gift_spiral_narrows_witness :
  let tree := GiftData.tree (fst (generateGifts half_draws)) in
  let radius (p : Vector3.t) :=
    sqrt (Vector3.x p * Vector3.x p + Vector3.z p * Vector3.z p) in
  radius (read3 tree 3) = 2.4 * (1 - INR 3 / 25 * 0.8)
  /\ 0 < radius (read3 tree 24) < radius (read3 tree 3)
  /\ Vector3.y (read3 tree 3) < Vector3.y (read3 tree 24).
Proof.
  apply (gift_spiral_narrows half_draws 3 24); unfold giftCount; lia.
Defined.

Lemma rings_before_mono (a b : nat) :
  (a <= b)%nat -> (rings_before a <= rings_before b)%nat.
Proof.
  induction 1 as [| b Hab IH]; [lia |].
  rewrite rings_before_succ. lia.
Qed.

Lemma rings_before_five : rings_before 5 = 90%nat.
Proof. reflexivity. Qed.

Lemma ring_slot_bound (ring j : nat) :
  (ring < 5)%nat -> (j < ring_count ring)%nat ->
  (rings_before ring + j < 90)%nat.
Proof.
  intros Hring Hj.
  pose proof (rings_before_mono (S ring) 5 ltac:(lia)) as Hmono.
  rewrite rings_before_succ, rings_before_five in Hmono. lia.
Qed.

Lemma ornament_placed_write (st : OrnamentLoop.t) (ring j : nat)
    (p q : Vector3.t) (w : list nat) :
  (rings_before ring + j < OrnamentLoop.oIdx st)%nat ->
  ornament_placed st ring j ->
  ornament_placed
    (OrnamentLoop.mk (write3 (OrnamentLoop.oScatter st) (OrnamentLoop.oIdx st) p)
       (write3 (OrnamentLoop.oTree st) (OrnamentLoop.oIdx st) q)
       (OrnamentLoop.oIdx st + 1) w)
    ring j.
Proof.
  intros Hlt (p0 & q0 & Hp & Hball & Hq & Hrest).
  exists p0, q0. cbn [OrnamentLoop.oScatter OrnamentLoop.oTree].
  split; [apply triple_at_write3_other; [lia | exact Hp] |].
  split; [exact Hball |].
  split; [apply triple_at_write3_other; [lia | exact Hq] | exact Hrest].
Qed.

Lemma ornament_body_filled (i j : nat) (st : OrnamentLoop.t) :
  (i < 5)%nat -> (j < ring_count i)%nat ->
  ornament_filled i j st ->
  yields unit_draws (ornament_body i j st)
    (fun r => exists st' : OrnamentLoop.t,
                r = Continue st' /\ ornament_filled i (S j) st').
Proof.
  intros Hi Hj (Hidx & Hlen1 & Hlen2 & Hrings & Hring).
  pose proof (ring_slot_bound i j Hi Hj) as Hslot.
  unfold ornament_body. cbv zeta.
  destruct (Nat.leb_spec sphereCount (OrnamentLoop.oIdx st)) as [Hcap | _];
    [unfold sphereCount in Hcap; lia |].
  eapply yields_bind; [apply unit_randomInSphere; lra |].
  intros sPos HsPos.
  eapply yields_bind; [apply unit_random |]. intros jitter Hjitter.
  apply yields_ret. eexists. split; [reflexivity |].
  set (q := Vector3.mk
              (cos (INR j / INR (ring_count i) * PI * 2 + INR i * 0.5)
               * ((2.0 - INR i * 0.4) * 0.95))
              (-1.5 + INR i * 1.1 - 0.1 + jitter * 0.3)
              (sin (INR j / INR (ring_count i) * PI * 2 + INR i * 0.5)
               * ((2.0 - INR i * 0.4) * 0.95))).
  match goal with
  | |- ornament_filled _ _ (OrnamentLoop.mk _ _ _ ?w) =>
      change (ornament_filled i (S j)
                (OrnamentLoop.mk
                   (write3 (OrnamentLoop.oScatter st) (OrnamentLoop.oIdx st) sPos)
                   (write3 (OrnamentLoop.oTree st) (OrnamentLoop.oIdx st) q)
                   (OrnamentLoop.oIdx st + 1) w))
  end.
  unfold ornament_filled at 1.
  cbn [OrnamentLoop.oIdx OrnamentLoop.oScatter OrnamentLoop.oTree].
  rewrite !length_write3.
  split; [lia |]. split; [exact Hlen1 |]. split; [exact Hlen2 |]. split.
  - intros ring j' Hring' Hj'.
    apply ornament_placed_write; [| now apply Hrings].
    pose proof (rings_before_mono (S ring) i ltac:(lia)) as Hmono.
    rewrite rings_before_succ in Hmono. lia.
  - intros j' Hj'.
    destruct (Nat.eq_dec j' j) as [-> | Hne].
    + exists sPos, q. cbn [OrnamentLoop.oScatter OrnamentLoop.oTree].
      rewrite <- Hidx.
      split; [apply triple_at_write3_same; unfold sphereCount in *; lia |].
      split; [exact HsPos |].
      split; [apply triple_at_write3_same; unfold sphereCount in *; lia |].
      subst q. cbn [Vector3.x Vector3.y Vector3.z].
      repeat split; lra.
    + apply ornament_placed_write; [lia | apply Hring; lia].
Qed.

Lemma ornament_ring_filled (i : nat) (st : OrnamentLoop.t) :
  (i < 5)%nat ->
  ornament_filled i 0 st ->
  yields unit_draws (ornament_ring i st) (ornament_filled (S i) 0).
Proof.
  intros Hi Hstart. unfold ornament_ring, loop_range.
  eapply yields_conseq.
  - apply (yields_forBreak_seq unit_draws (ornament_filled i)
             (ornament_body i) (ring_count i) 0 st Hstart).
    intros j st' Hj. apply ornament_body_filled; [exact Hi | lia].
  - intros st' (Hidx & Hlen1 & Hlen2 & Hrings & Hring). cbn [Nat.add] in *.
    split; [rewrite rings_before_succ; lia |].
    split; [exact Hlen1 |]. split; [exact Hlen2 |]. split.
    + intros ring j' Hring' Hj'.
      destruct (Nat.eq_dec ring i) as [-> | Hne].
      * now apply Hring.
      * apply Hrings; [lia | exact Hj'].
    + intros j' Hj'. lia.
Qed.

Lemma ornament_loops_filled :
  yields unit_draws ornament_loops (ornament_filled 5 0).
Proof.
  unfold ornament_loops, loop_range.
  apply (yields_forM_seq unit_draws (fun i => ornament_filled i 0)
           ornament_ring 5 0).
  - split; [reflexivity |].
    split; [apply length_replicate |]. split; [apply length_replicate |].
    split; [intros ring j' Hring; lia | intros j' Hj'; lia].
  - intros i st Hi. apply ornament_ring_filled. lia.
Qed.

Lemma generateOrnaments_buffers (src : RandomSource) :
  OrnamentData.scatter (fst (generateOrnaments src))
  = OrnamentLoop.oScatter (fst (ornament_loops src))
  /\ OrnamentData.tree (fst (generateOrnaments src))
     = OrnamentLoop.oTree (fst (ornament_loops src)).
Proof.
  unfold generateOrnaments. rewrite bind_run. split; reflexivity.
Qed.

(** X14: under draws in [[0, 1)], element [j] of ring [ring] is stored
    right after the elements of the earlier rings, and its tree position
    lies on the ring's circle of radius [(2.0 - 0.4 * ring) * 0.95] at the
    azimuth [j / count] of a full turn plus the ring's phase
    [0.5 * ring], at a height in the band of width 0.3 that starts 0.1
    below [-1.5 + 1.1 * ring]. *)
Theorem ornament_ring_layout (src : RandomSource) (ring j : nat) :
  unit_draws src ->
  (ring < 5)%nat ->
  (j < ring_count ring)%nat ->
  let q :=
    read3 (OrnamentData.tree (fst (generateOrnaments src)))
          (rings_before ring + j) in
  let angle := INR j / INR (ring_count ring) * PI * 2 + INR ring * 0.5 in
  Vector3.x q = cos angle * ((2.0 - INR ring * 0.4) * 0.95)
  /\ Vector3.z q = sin angle * ((2.0 - INR ring * 0.4) * 0.95)
  /\ -1.5 + INR ring * 1.1 - 0.1 <= Vector3.y q
     < -1.5 + INR ring * 1.1 + 0.2.
Proof.
  intros Hsrc Hring Hj q angle. subst q angle.
  destruct (generateOrnaments_buffers src) as [_ ->].
  destruct (ornament_loops_filled src Hsrc) as [(_ & _ & _ & Hrings & _) _].
  destruct (Hrings ring j Hring Hj) as (p & q & _ & _ & Hq & Hx & Hz & Hy).
  rewrite (triple_at_read3 _ _ _ Hq). now repeat split.
Qed.

Lemma ornament_ring_layout_witness :
  let q :=
    read3 (OrnamentData.tree (fst (generateOrnaments half_draws)))
          (rings_before 4 + 25) in
  let angle := INR 25 / INR (ring_count 4) * PI * 2 + INR 4 * 0.5 in
  Vector3.x q = cos angle * ((2.0 - INR 4 * 0.4) * 0.95)
  /\ Vector3.z q = sin angle * ((2.0 - INR 4 * 0.4) * 0.95)
  /\ -1.5 + INR 4 * 1.1 - 0.1 <= Vector3.y q < -1.5 + INR 4 * 1.1 + 0.2.
Proof.
  apply (ornament_ring_layout half_draws 4 25).
  - exact half_draws_unit.
  - lia.
  - unfold ring_count. lia.
Defined.

Lemma ring_of_index (k : nat) :
  (k < 90)%nat ->
  exists ring j : nat,
    (ring < 5)%nat /\ (j < ring_count ring)%nat
    /\ k = (rings_before ring + j)%nat.
Proof.
  intros Hk.
  assert (Hcase : (k < 10 \/ 10 <= k < 24 \/ 24 <= k < 42 \/ 42 <= k < 64
                   \/ 64 <= k < 90)%nat) by lia.
  destruct Hcase as [H | [H | [H | [H | H]]]].
  - exists 0%nat, k. change (rings_before 0) with 0%nat.
    unfold ring_count. lia.
  - exists 1%nat, (k - 10)%nat. change (rings_before 1) with 10%nat.
    unfold ring_count. lia.
  - exists 2%nat, (k - 24)%nat. change (rings_before 2) with 24%nat.
    unfold ring_count. lia.
  - exists 3%nat, (k - 42)%nat. change (rings_before 3) with 42%nat.
    unfold ring_count. lia.
  - exists 4%nat, (k - 64)%nat. change (rings_before 4) with 64%nat.
    unfold ring_count. lia.
Qed.

(** X15: under draws in [[0, 1)], each of the 90 ornaments has its scatter
    position in the closed ball of radius 7 about [(0, 1, 0)]. *)
Theorem ornament_scatter_in_ball (src : RandomSource) (k : nat) :
  unit_draws src ->
  (k < OrnamentData.count (fst (generateOrnaments src)))%nat ->
  Vector3.distanceTo
    (read3 (OrnamentData.scatter (fst (generateOrnaments src))) k)
    (Vector3.mk 0 1 0)
  <= 7.
Proof.
  intros Hsrc Hk.
  assert (Hcount : OrnamentData.count (fst (generateOrnaments src)) = 90%nat).
  { unfold generateOrnaments. rewrite bind_run. unfold ret.
    cbn [fst OrnamentData.count]. apply ornament_loops_count. }
  rewrite Hcount in Hk.
  destruct (ring_of_index k Hk) as (ring & j & Hring & Hj & ->).
  destruct (generateOrnaments_buffers src) as [-> _].
  destruct (ornament_loops_filled src Hsrc) as [(_ & _ & _ & Hrings & _) _].
  destruct (Hrings ring j Hring Hj) as (p & q & Hp & Hball & _).
  now rewrite (triple_at_read3 _ _ _ Hp).
Qed.

Lemma ornament_scatter_in_ball_witness :
  Vector3.distanceTo
    (read3 (OrnamentData.scatter (fst (generateOrnaments half_draws))) 89)
    (Vector3.mk 0 1 0)
  <= 7.
Proof.
  apply (ornament_scatter_in_ball half_draws 89).
  - exact half_draws_unit.
  - replace (OrnamentData.count (fst (generateOrnaments half_draws)))
      with 90%nat; [lia |].
    unfold generateOrnaments. rewrite bind_run. unfold ret.
    cbn [fst OrnamentData.count]. symmetry. apply ornament_loops_count.
Defined.

Lemma forBreak_inv {St : Type} (Inv : St -> Prop)
    (body : nat -> St -> Rand (Step St)) :
  (forall (j : nat) (s : St) (src : RandomSource),
      Inv s ->
      match fst (body j s src) with
      | Continue s' | Break s' => Inv s'
      end) ->
  forall (idx : list nat) (s : St) (src : RandomSource),
    Inv s -> Inv (fst (forBreak idx body s src)).
Proof.
  intros Hbody idx.
  induction idx as [| j rest IH]; intros s src Hs; simpl.
  - exact Hs.
  - rewrite bind_run. pose proof (Hbody j s src Hs) as Hstep.
    destruct (fst (body j s src)) as [s' | s'].
    + now apply IH.
    + exact Hstep.
Qed.

Lemma ornament_body_continue (i j : nat) (st : OrnamentLoop.t)
    (src : RandomSource) :
  (OrnamentLoop.oIdx st < sphereCount)%nat ->
  exists (p q : Vector3.t) (w : list nat),
    fst (ornament_body i j st src)
    = Continue
        (OrnamentLoop.mk
           (write3 (OrnamentLoop.oScatter st) (OrnamentLoop.oIdx st) p)
           (write3 (OrnamentLoop.oTree st) (OrnamentLoop.oIdx st) q)
           (OrnamentLoop.oIdx st + 1) w).
Proof.
  intros Hroom. unfold ornament_body. cbv zeta.
  destruct (Nat.leb_spec sphereCount (OrnamentLoop.oIdx st)) as [Hcap | _];
    [lia |].
  rewrite !bind_run. unfold ret. cbn [fst].
  eexists (fst (randomInSphere 7 1 src)), (Vector3.mk _ _ _), _.
  reflexivity.
Qed.

Lemma ornament_body_tail_blank (i j : nat) (st : OrnamentLoop.t)
    (src : RandomSource) :
  ornament_tail_blank st ->
  match fst (ornament_body i j st src) with
  | Continue st' | Break st' => ornament_tail_blank st'
  end.
Proof.
  intros (Hlen1 & Hlen2 & Hblank).
  destruct (ornament_body_cases i j st src)
    as [[_ ->] | [Hroom _]];
    [cbn [fst]; exact (conj Hlen1 (conj Hlen2 Hblank)) |].
  destruct (ornament_body_continue i j st src Hroom) as (p & q & w & ->).
  unfold ornament_tail_blank.
  cbn [OrnamentLoop.oScatter OrnamentLoop.oTree OrnamentLoop.oIdx].
  rewrite !length_write3.
  split; [exact Hlen1 |]. split; [exact Hlen2 |].
  intros k Hk. rewrite !lookup_write3_other by lia.
  apply Hblank. lia.
Qed.

Lemma ornament_loops_tail_blank (src : RandomSource) :
  ornament_tail_blank (fst (ornament_loops src)).
Proof.
  unfold ornament_loops, loop_range.
  apply (forM_seq_inv (fun _ st => ornament_tail_blank st) ornament_ring 5 0).
  - split; [apply length_replicate |]. split; [apply length_replicate |].
    intros k Hk. cbn [OrnamentLoop.oScatter OrnamentLoop.oTree].
    unfold new_Float32Array.
    rewrite lookup_replicate_2 by lia. now split.
  - intros i st src' _ Hst. unfold ornament_ring.
    apply forBreak_inv; [| exact Hst].
    intros j s src''. apply ornament_body_tail_blank.
Qed.

Lemma generateOrnaments_count (src : RandomSource) :
  OrnamentData.count (fst (generateOrnaments src))
  = OrnamentLoop.oIdx (fst (ornament_loops src)).
Proof. unfold generateOrnaments. rewrite bind_run. reflexivity. Qed.

(** X16: the two ornament buffers have room for 120 elements but only
    the generated ones are ever stored: every entry from offset
    [3 * count] up to the end of either buffer is still 0. *)
Theorem ornament_unused_slots_blank (src : RandomSource) (k : nat) :
  let od := fst (generateOrnaments src) in
  (OrnamentData.count od * 3 <= k < sphereCount * 3)%nat ->
  OrnamentData.scatter od !! k = Some 0
  /\ OrnamentData.tree od !! k = Some 0.
Proof.
  intros od Hk. subst od.
  rewrite generateOrnaments_count in Hk.
  destruct (generateOrnaments_buffers src) as [-> ->].
  destruct (ornament_loops_tail_blank src) as (_ & _ & Hblank).
  apply Hblank. exact Hk.
Qed.

Lemma ornament_unused_slots_blank_witness :
  let od := fst (generateOrnaments half_draws) in
  OrnamentData.scatter od !! 300%nat = Some 0
  /\ OrnamentData.tree od !! 300%nat = Some 0.
Proof.
  apply (ornament_unused_slots_blank half_draws 300).
  rewrite generateOrnaments_count, ornament_loops_count.
  unfold sphereCount. rewrite rings_before_five. lia.
Defined.

Lemma ornament_ring_at_cap (i : nat) (st : OrnamentLoop.t)
    (src : RandomSource) :
  (sphereCount <= OrnamentLoop.oIdx st)%nat ->
  ornament_ring i st src = (st, src).
Proof.
  intros Hcap. unfold ornament_ring, loop_range, ring_count.
  cbn [Nat.add seq forBreak].
  destruct (ornament_body_cases i 0 st src) as [[_ Hbreak] | [Hroom _]];
    [| lia].
  unfold bind. now rewrite Hbreak.
Qed.

(** X17: a ring that starts with the fill index within the cap of 120
    ends with the fill index raised by the ring's count but cut off at the
    cap; a ring that starts at the cap stores nothing and draws nothing. *)
Theorem ring_fill_stops_at_cap (i : nat) (st : OrnamentLoop.t)
    (src : RandomSource) :
  (OrnamentLoop.oIdx st <= sphereCount)%nat ->
  OrnamentLoop.oIdx (fst (ornament_ring i st src))
  = Nat.min sphereCount (OrnamentLoop.oIdx st + ring_count i)
  /\ (OrnamentLoop.oIdx st = sphereCount ->
      ornament_ring i st src = (st, src)).
Proof.
  intros Hcap. split.
  - now apply ornament_ring_count.
  - intros Hfull. apply ornament_ring_at_cap. lia.
Qed.

Lemma ring_fill_stops_at_cap_witness :
  let st := OrnamentLoop.mk (new_Float32Array 360) (new_Float32Array 360)
                            115 [] in
  OrnamentLoop.oIdx (fst (ornament_ring 4 st half_draws))
  = Nat.min sphereCount (115 + ring_count 4)
  /\ (115%nat = sphereCount -> ornament_ring 4 st half_draws = (st, half_draws)).
Proof.
  apply (ring_fill_stops_at_cap 4
           (OrnamentLoop.mk (new_Float32Array 360) (new_Float32Array 360)
                            115 [])
           half_draws).
  cbn [OrnamentLoop.oIdx]. unfold sphereCount. lia.
Defined.

Lemma yields_any {A : Type} (m : Rand A) :
  yields any_draws m (fun _ => True).
Proof. intros src _. split; exact I. Qed.

Lemma triple_at_app_old (a t : Float32Array) (k : nat) (p : Vector3.t) :
  triple_at a k p -> triple_at (a ++ t) k p.
Proof.
  intros (Hx & Hy & Hz). unfold triple_at.
  now rewrite !(lookup_app_l_Some _ _ _ _ Hx), !(lookup_app_l_Some _ _ _ _ Hy),
    !(lookup_app_l_Some _ _ _ _ Hz).
Qed.

Lemma triple_at_app_new (a : Float32Array) (k : nat) (x y z : R) :
  length a = (k * 3)%nat ->
  triple_at (a ++ [x; y; z]) k (Vector3.mk x y z).
Proof.
  intros Hlen. unfold triple_at. cbn [Vector3.x Vector3.y Vector3.z].
  rewrite !lookup_app_r by lia. rewrite Hlen.
  replace (k * 3 - k * 3)%nat with 0%nat by lia.
  replace (k * 3 + 1 - k * 3)%nat with 1%nat by lia.
  replace (k * 3 + 2 - k * 3)%nat with 2%nat by lia.
  repeat split.
Qed.

Lemma lookup_app_new {A : Type} (l : list A) (x : A) :
  (l ++ [x]) !! length l = Some x.
Proof. now apply list_lookup_middle. Qed.

Lemma foliage_body_sized (i : nat) (g : BufferGeometry.t) :
  foliage_sized i g ->
  yields any_draws (foliage_body i g) (foliage_sized (S i)).
Proof.
  intros (Hpos & Htarget & Hrandom & Hsize).
  unfold foliage_body. cbv zeta.
  do 8 (eapply yields_bind; [apply yields_any | intros ? _]).
  apply yields_ret. unfold foliage_sized.
  cbn [BufferGeometry.position BufferGeometry.aTargetPos
       BufferGeometry.aRandom BufferGeometry.aSize].
  rewrite !length_app. cbn [length]. lia.
Qed.

(** X18: the four attribute arrays of the foliage describe the same 8000
    points: [position] and [aTargetPos] hold three numbers for each point
    and [aRandom] and [aSize] hold one. *)
Theorem foliage_buffer_sizes (src : RandomSource) :
  let g := fst (generateFoliage src) in
  length (BufferGeometry.position g) = (foliageCount * 3)%nat
  /\ length (BufferGeometry.aTargetPos g) = (foliageCount * 3)%nat
  /\ length (BufferGeometry.aRandom g) = foliageCount
  /\ length (BufferGeometry.aSize g) = foliageCount.
Proof.
  intros g. subst g. unfold generateFoliage, loop_range.
  apply (yields_forM_seq any_draws foliage_sized foliage_body foliageCount 0).
  - repeat split.
  - intros i g _. apply foliage_body_sized.
  - exact I.
Qed.

Lemma floor_index (a : R) (n : nat) :
  0 <= a < INR n -> (Z.to_nat (JSMath.floor a) < n)%nat.
Proof.
  intros [Hlo Hhi]. unfold JSMath.floor.
  destruct (base_Int_part a) as [Hle Hgt].
  assert (Hupper : (Int_part a < Z.of_nat n)%Z).
  { apply lt_IZR. rewrite <- INR_IZR_INZ. lra. }
  assert (Hlower : (-1 < Int_part a)%Z).
  { apply lt_IZR. lra. }
  lia.
Qed.

Lemma layer_facts (layer : Layer.t) :
  In layer layers ->
  0 < Layer.r layer <= 2.3
  /\ 0 < Layer.h layer
  /\ -1.75 <= Layer.y layer - Layer.h layer / 2
  /\ Layer.y layer + Layer.h layer / 2 <= 3.9.
Proof.
  unfold layers. intros Hin.
  repeat (destruct Hin as [<- | Hin];
          [cbn [Layer.r Layer.h Layer.y]; repeat split; lra |]).
  destruct Hin.
Qed.

Lemma foliage_placed_app (g : BufferGeometry.t) (k : nat)
    (t1 t2 t3 t4 : list R) :
  foliage_placed g k ->
  foliage_placed
    (BufferGeometry.mk (BufferGeometry.position g ++ t1)
       (BufferGeometry.aTargetPos g ++ t2)
       (BufferGeometry.aRandom g ++ t3) (BufferGeometry.aSize g ++ t4)) k.
Proof.
  intros (p & q & layer & hRatio & rnd & sz & Hp & Hball & Hq & Hin & Hh & Hy
          & Hcone & Hrnd & Hrange & Hsz & Hsize).
  exists p, q, layer, hRatio, rnd, sz.
  cbn [BufferGeometry.position BufferGeometry.aTargetPos
       BufferGeometry.aRandom BufferGeometry.aSize].
  split; [now apply triple_at_app_old |]. split; [exact Hball |].
  split; [now apply triple_at_app_old |]. split; [exact Hin |].
  split; [exact Hh |]. split; [exact Hy |]. split; [exact Hcone |].
  split; [now apply lookup_app_l_Some |]. split; [exact Hrange |].
  split; [now apply lookup_app_l_Some | exact Hsize].
Qed.

Lemma foliage_body_filled (i : nat) (g : BufferGeometry.t) :
  foliage_filled i g ->
  yields unit_draws (foliage_body i g) (foliage_filled (S i)).
Proof.
  intros [(Hpos & Htarget & Hrandom & Hsize) Hdone].
  unfold foliage_body. cbv zeta.
  eapply yields_bind; [apply unit_randomInSphere; lra |]. intros sPos HsPos.
  eapply yields_bind; [apply unit_random |]. intros pick Hpick.
  eapply yields_bind; [apply unit_random |]. intros hRatio HhRatio.
  eapply yields_bind; [apply unit_random |]. intros coin Hcoin.
  eapply yields_bind with (mid := fun rBias => 0 <= rBias < 1).
  { destruct (Rgt_dec coin 0.8); [apply unit_random |].
    eapply yields_bind; [apply unit_random |]. intros d Hd.
    apply yields_ret. lra. }
  intros rBias HrBias.
  eapply yields_bind; [apply unit_random |]. intros a Ha.
  eapply yields_bind; [apply unit_random |]. intros rnd Hrnd.
  eapply yields_bind; [apply unit_random |]. intros sz Hsz.
  apply yields_ret.
  set (layer := nth (Z.to_nat (JSMath.floor (pick * INR (length layers))))
                    layers (Layer.mk (-1.0) 2.3 1.5)).
  assert (Hin : In layer layers).
  { apply nth_In. apply floor_index.
    assert (0 < INR (length layers)) by (simpl; lra). nra. }
  destruct (layer_facts layer Hin) as ([Hr _] & Hh & _).
  split.
  - unfold foliage_sized.
    cbn [BufferGeometry.position BufferGeometry.aTargetPos
         BufferGeometry.aRandom BufferGeometry.aSize].
    rewrite !length_app. cbn [length]. lia.
  - intros k Hk.
    destruct (Nat.eq_dec k i) as [-> | Hne];
      [| apply foliage_placed_app; apply Hdone; lia].
    exists sPos,
      (Vector3.mk
         (cos (a * PI * 2) * (Layer.r layer * (1 - hRatio) * rBias))
         (Layer.y layer + (hRatio - 0.5) * Layer.h layer)
         (sin (a * PI * 2) * (Layer.r layer * (1 - hRatio) * rBias))),
      layer, hRatio, rnd, (sz * 0.5 + 0.5).
    cbn [BufferGeometry.position BufferGeometry.aTargetPos
         BufferGeometry.aRandom BufferGeometry.aSize].
    split.
    { destruct sPos as [sx sy sz']. cbn [Vector3.x Vector3.y Vector3.z].
      now apply triple_at_app_new. }
    split; [exact HsPos |].
    split; [now apply triple_at_app_new |].
    split; [exact Hin |]. split; [exact HhRatio |].
    cbn [Vector3.x Vector3.y Vector3.z].
    split; [reflexivity |]. split.
    { pose proof (sin2_cos2 (a * PI * 2)) as Hunit. unfold Rsqr in Hunit.
      set (c := Layer.r layer * (1 - hRatio)) in *.
      replace (cos (a * PI * 2) * (c * rBias) * (cos (a * PI * 2) * (c * rBias))
               + sin (a * PI * 2) * (c * rBias)
                 * (sin (a * PI * 2) * (c * rBias)))
        with ((sin (a * PI * 2) * sin (a * PI * 2)
               + cos (a * PI * 2) * cos (a * PI * 2))
              * ((c * c) * (rBias * rBias))) by ring.
      rewrite Hunit, Rmult_1_l.
      assert (0 <= c * c) by nra. assert (rBias * rBias <= 1) by nra. nra. }
    rewrite <- Hrandom at 1. rewrite <- Hsize at 1.
    split; [apply lookup_app_new |]. split; [exact Hrnd |].
    split; [apply lookup_app_new | lra].
Qed.

Lemma generateFoliage_filled :
  yields unit_draws generateFoliage (foliage_filled foliageCount).
Proof.
  unfold generateFoliage, loop_range.
  apply (yields_forM_seq unit_draws foliage_filled foliage_body foliageCount 0).
  - split; [repeat split | intros k Hk; lia].
  - intros i g _. apply foliage_body_filled.
Qed.

(** X19: under draws in [[0, 1)], every foliage point has its tree
    position inside the cone of one of the five layers: at a height ratio
    [hRatio] in [[0, 1)] of the layer its height is
    [y + (hRatio - 0.5) * h] and its distance from the axis is at most
    [r * (1 - hRatio)]; so the whole canopy lies within the radius 2.3 of
    the axis, between the heights -1.75 and 3.9. *)
Theorem foliage_target_in_cone (src : RandomSource) (k : nat) :
  unit_draws src ->
  (k < foliageCount)%nat ->
  let q := read3 (BufferGeometry.aTargetPos (fst (generateFoliage src))) k in
  let square := Vector3.x q * Vector3.x q + Vector3.z q * Vector3.z q in
  (exists (layer : Layer.t) (hRatio : R),
      In layer layers
      /\ 0 <= hRatio < 1
      /\ Vector3.y q = Layer.y layer + (hRatio - 0.5) * Layer.h layer
      /\ square
         <= (Layer.r layer * (1 - hRatio)) * (Layer.r layer * (1 - hRatio)))
  /\ square <= 2.3 * 2.3
  /\ -1.75 <= Vector3.y q < 3.9.
Proof.
  intros Hsrc Hk q square.
  destruct (generateFoliage_filled src Hsrc) as [[_ Hdone] _].
  destruct (Hdone k Hk)
    as (p & q' & layer & hRatio & rnd & sz & _ & _ & Hq & Hin & Hh & Hy
        & Hcone & _).
  assert (Hqq : q = q') by (subst q; now apply triple_at_read3).
  subst square. rewrite Hqq. clear Hqq q.
  destruct (layer_facts layer Hin) as ([Hr Hrmax] & Hhpos & Hlow & Hhigh).
  split.
  - exists layer, hRatio. repeat split; first [assumption | apply Hh].
  - assert (0 <= Layer.r layer * (1 - hRatio) <= 2.3) by nra.
    split; [nra |]. rewrite Hy. split; nra.
Qed.

Lemma first_foliage_point : (0 < foliageCount)%nat.
Proof. unfold foliageCount. lia. Qed.

Lemma foliage_target_in_cone_witness :
  let q :=
    read3 (BufferGeometry.aTargetPos (fst (generateFoliage half_draws))) 0 in
  let square := Vector3.x q * Vector3.x q + Vector3.z q * Vector3.z q in
  (exists (layer : Layer.t) (hRatio : R),
      In layer layers
      /\ 0 <= hRatio < 1
      /\ Vector3.y q = Layer.y layer + (hRatio - 0.5) * Layer.h layer
      /\ square
         <= (Layer.r layer * (1 - hRatio)) * (Layer.r layer * (1 - hRatio)))
  /\ square <= 2.3 * 2.3
  /\ -1.75 <= Vector3.y q < 3.9.
Proof.
  apply (foliage_target_in_cone half_draws 0).
  - exact half_draws_unit.
  - exact first_foliage_point.
Defined.

(** X20: under draws in [[0, 1)], every foliage point has its scatter
    position in the closed ball of radius 8 about [(0, 2, 0)], its random
    seed in [[0, 1)] and its size in [[0.5, 1)]. *)
Theorem foliage_scatter_and_seeds (src : RandomSource) (k : nat) :
  unit_draws src ->
  (k < foliageCount)%nat ->
  let g := fst (generateFoliage src) in
  Vector3.distanceTo (read3 (BufferGeometry.position g) k) (Vector3.mk 0 2 0)
  <= 8
  /\ 0 <= get (BufferGeometry.aRandom g) k < 1
  /\ 0.5 <= get (BufferGeometry.aSize g) k < 1.
Proof.
  intros Hsrc Hk g. subst g.
  destruct (generateFoliage_filled src Hsrc) as [[_ Hdone] _].
  destruct (Hdone k Hk)
    as (p & q & layer & hRatio & rnd & sz & Hp & Hball & _ & _ & _ & _ & _
        & Hrnd & Hrange & Hsz & Hsize).
  rewrite (triple_at_read3 _ _ _ Hp). unfold get. rewrite Hrnd, Hsz.
  cbn [default]. repeat split; first [exact Hball | apply Hrange | apply Hsize].
Qed.

Lemma foliage_scatter_and_seeds_witness :
  let g := fst (generateFoliage half_draws) in
  Vector3.distanceTo (read3 (BufferGeometry.position g) 0) (Vector3.mk 0 2 0)
  <= 8
  /\ 0 <= get (BufferGeometry.aRandom g) 0 < 1
  /\ 0.5 <= get (BufferGeometry.aSize g) 0 < 1.
Proof.
  apply (foliage_scatter_and_seeds half_draws 0).
  - exact half_draws_unit.
  - exact first_foliage_point.
Defined.

(** * Properties of the star topper *)

Lemma star_target_on_axis (m : TreeMorphState) :
  let target :=
    if morph_eqb m TREE_SHAPE
    then StarTopper.treePos else StarTopper.scatterPos in
  Vector3.x target = 0 /\ Vector3.z target = 0
  /\ 4.2 <= Vector3.y target <= 7.
Proof. destruct m; cbn; repeat split; lra. Qed.

Lemma star_frame_in_range (m : TreeMorphState) (delta : R)
    (s : StarTopper.t) :
  0 <= delta <= 1 ->
  Vector3.x (StarTopper.currentPos s) = 0 ->
  Vector3.z (StarTopper.currentPos s) = 0 ->
  4.2 <= Vector3.y (StarTopper.currentPos s) <= 7 ->
  let s' := StarTopper.useFrame m delta s in
  Vector3.x (StarTopper.currentPos s') = 0
  /\ Vector3.z (StarTopper.currentPos s') = 0
  /\ 4.2 <= Vector3.y (StarTopper.currentPos s') <= 7.
Proof.
  intros Hdelta Hx Hz Hy s'. subst s'. unfold StarTopper.useFrame.
  destruct (StarTopper.ref s); [| now repeat split].
  cbv zeta. cbn [StarTopper.currentPos].
  destruct (star_target_on_axis m) as (Htx & Htz & Hty).
  unfold Vector3.lerp. cbn [Vector3.x Vector3.y Vector3.z].
  rewrite Hx, Hz, Htx, Htz. repeat split; nra.
Qed.

Lemma star_frame_follows (m : TreeMorphState) (delta : R)
    (s : StarTopper.t) :
  (forall star : StarTopper.Star,
      StarTopper.ref s = Some star ->
      StarTopper.position star = StarTopper.currentPos s) ->
  forall star : StarTopper.Star,
    StarTopper.ref (StarTopper.useFrame m delta s) = Some star ->
    StarTopper.position star
    = StarTopper.currentPos (StarTopper.useFrame m delta s).
Proof.
  intros Hfollows star. unfold StarTopper.useFrame.
  destruct (StarTopper.ref s) as [star0 |] eqn:Href.
  - cbv zeta. cbn [StarTopper.ref StarTopper.currentPos].
    intros [= <-]. reflexivity.
  - rewrite Href. discriminate.
Qed.

(** X21: as long as every frame delta lies in [[0, 1]], whatever the morph
    states, the star stays on the vertical axis between its tree height
    4.2 and its scatter height 7, and the group drawn on screen sits where
    the tracked position is. *)
Theorem star_stays_between_heights (frames : list Frame.t) :
  Forall (fun f => 0 <= Frame.delta f <= 1) frames ->
  let s := StarTopper.run_frames frames StarTopper.mount in
  Vector3.x (StarTopper.currentPos s) = 0
  /\ Vector3.z (StarTopper.currentPos s) = 0
  /\ 4.2 <= Vector3.y (StarTopper.currentPos s) <= 7
  /\ forall star : StarTopper.Star,
       StarTopper.ref s = Some star ->
       StarTopper.position star = StarTopper.currentPos s.
Proof.
  intros Hdeltas. cbv zeta. unfold StarTopper.run_frames.
  assert (Hstart :
            Vector3.x (StarTopper.currentPos StarTopper.mount) = 0
            /\ Vector3.z (StarTopper.currentPos StarTopper.mount) = 0
            /\ 4.2 <= Vector3.y (StarTopper.currentPos StarTopper.mount) <= 7
            /\ forall star : StarTopper.Star,
                 StarTopper.ref StarTopper.mount = Some star ->
                 StarTopper.position star
                 = StarTopper.currentPos StarTopper.mount).
  { cbn. repeat split; try lra. intros star [= <-]. reflexivity. }
  revert Hstart. generalize StarTopper.mount as s.
  induction Hdeltas as [| f rest Hf Hrest IH]; intros s Hs; [exact Hs |].
  cbn [fold_left]. apply IH.
  destruct Hs as (Hx & Hz & Hy & Hfollows).
  destruct (star_frame_in_range (TreeConfig.morphState (Frame.config f))
              (Frame.delta f) s Hf Hx Hz Hy) as (Hx' & Hz' & Hy').
  repeat split; try assumption; try apply Hy'.
  now apply star_frame_follows.
Qed.

Lemma star_stays_between_heights_witness :
  let s :=
    StarTopper.run_frames
      [Frame.mk scattered_config 0 (1 / 2); Frame.mk tree_config (1 / 2) 1]
      StarTopper.mount in
  Vector3.x (StarTopper.currentPos s) = 0
  /\ Vector3.z (StarTopper.currentPos s) = 0
  /\ 4.2 <= Vector3.y (StarTopper.currentPos s) <= 7
  /\ forall star : StarTopper.Star,
       StarTopper.ref s = Some star ->
       StarTopper.position star = StarTopper.currentPos s.
Proof.
  apply (star_stays_between_heights
           [Frame.mk scattered_config 0 (1 / 2);
            Frame.mk tree_config (1 / 2) 1]).
  repeat constructor; cbn [Frame.delta]; lra.
Defined.

Lemma star_product_form (frames : list Frame.t) (m : TreeMorphState) :
  forall (s : StarTopper.t) (star : StarTopper.Star),
    StarTopper.ref s = Some star ->
    Forall (fun f => TreeConfig.morphState (Frame.config f) = m) frames ->
    let target :=
      if morph_eqb m TREE_SHAPE
      then StarTopper.treePos else StarTopper.scatterPos in
    Vector3.y target
    - Vector3.y (StarTopper.currentPos (StarTopper.run_frames frames s))
    = (Vector3.y target - Vector3.y (StarTopper.currentPos s))
      * StarTopper.decay frames
    /\ exists star' : StarTopper.Star,
         StarTopper.ref (StarTopper.run_frames frames s) = Some star'.
Proof.
  induction frames as [| f rest IH]; intros s star Href Hflag target.
  - cbn. split; [lra | now exists star].
  - apply Forall_cons in Hflag as [Hf Hrest].
    unfold StarTopper.run_frames. cbn [fold_left].
    fold (StarTopper.run_frames rest
            (StarTopper.useFrame (TreeConfig.morphState (Frame.config f))
               (Frame.delta f) s)).
    set (cur := Vector3.lerp (StarTopper.currentPos s) target
                  (Frame.delta f * 1.0)).
    set (next := StarTopper.mkStar cur
                   (StarTopper.rotation_y star + Frame.delta f * 0.5)).
    assert (Hstep :
              StarTopper.useFrame (TreeConfig.morphState (Frame.config f))
                (Frame.delta f) s
              = StarTopper.mk (Some next) cur).
    { unfold StarTopper.useFrame. rewrite Href, Hf. reflexivity. }
    rewrite Hstep.
    destruct (IH (StarTopper.mk (Some next) cur) next eq_refl Hrest)
      as [Hy Href'].
    split; [| exact Href'].
    fold target in Hy. rewrite Hy.
    cbn [StarTopper.currentPos StarTopper.decay fold_right].
    fold (StarTopper.decay rest). subst cur.
    unfold Vector3.lerp. cbn [Vector3.y]. ring.
Qed.

Lemma decay_below_star_decay (frames : list Frame.t) :
  Forall (fun f => 0 <= Frame.delta f <= 1 / 2) frames ->
  0 <= decay frames <= StarTopper.decay frames.
Proof.
  induction 1 as [| f rest Hf Hrest IH].
  - cbn. lra.
  - cbn [decay StarTopper.decay fold_right].
    fold (decay rest). fold (StarTopper.decay rest). nra.
Qed.

(** X22: while the flag stays on one state, the star's height closes in
    on its target by the factor [1 - delta] per frame where the progress
    value closes in by [1 - 2 * delta]; so for deltas in [[0, 1/2]] the share
    of the way the star still has to go is never smaller than the share
    the progress value still has to go. *)
Theorem star_moves_slower
    (frames : list Frame.t) (m : TreeMorphState)
    (star : StarTopper.t) (s : Store.t) (g : StarTopper.Star) :
  StarTopper.ref star = Some g ->
  Forall (fun f => TreeConfig.morphState (Frame.config f) = m) frames ->
  Forall (fun f => 0 <= Frame.delta f <= 1 / 2) frames ->
  let target :=
    if morph_eqb m TREE_SHAPE
    then StarTopper.treePos else StarTopper.scatterPos in
  Vector3.y target
  - Vector3.y (StarTopper.currentPos (StarTopper.run_frames frames star))
  = (Vector3.y target - Vector3.y (StarTopper.currentPos star))
    * StarTopper.decay frames
  /\ Store.progress (run_frames frames s) - targetProgress m
     = (Store.progress s - targetProgress m) * decay frames
  /\ 0 <= decay frames <= StarTopper.decay frames.
Proof.
  intros Href Hflag Hdeltas target.
  split; [apply (star_product_form frames m star g Href Hflag) |].
  split; [| now apply decay_below_star_decay].
  clear Href Hdeltas. revert s.
  induction Hflag as [| f rest Hf Hrest IH]; intros s.
  - cbn. lra.
  - rewrite run_frames_cons, IH, useFrame_progress, Hf.
    cbn [decay fold_right]. fold (decay rest). unfold MathUtils.lerp. lra.
Qed.

Lemma star_moves_slower_witness :
  let frames :=
    [Frame.mk scattered_config 0 (1 / 4);
     Frame.mk scattered_config (1 / 4) (1 / 2)] in
  let target :=
    if morph_eqb SCATTERED TREE_SHAPE
    then StarTopper.treePos else StarTopper.scatterPos in
  Vector3.y target
  - Vector3.y (StarTopper.currentPos
                 (StarTopper.run_frames frames StarTopper.mount))
  = (Vector3.y target - Vector3.y (StarTopper.currentPos StarTopper.mount))
    * StarTopper.decay frames
  /\ Store.progress (run_frames frames mounted) - targetProgress SCATTERED
     = (Store.progress mounted - targetProgress SCATTERED) * decay frames
  /\ 0 <= decay frames <= StarTopper.decay frames.
Proof.
  apply (star_moves_slower
           [Frame.mk scattered_config 0 (1 / 4);
            Frame.mk scattered_config (1 / 4) (1 / 2)]
           SCATTERED StarTopper.mount mounted
           (StarTopper.mkStar (Vector3.mk 0 4.2 0) 0)).
  - reflexivity.
  - repeat constructor.
  - repeat constructor; cbn [Frame.delta]; lra.
Defined.

(** * Properties of the overlay and the wish service *)

Lemma or_else_nonempty (value : option string) (fallback : string) :
  fallback <> EmptyString -> or_else value fallback <> EmptyString.
Proof.
  intros Hfallback. unfold or_else.
  destruct value as [s |]; [| exact Hfallback].
  destruct (String.eqb s EmptyString) eqn:Hempty; [exact Hfallback |].
  now apply String.eqb_neq.
Qed.

Lemma or_else_truthy (s fallback : string) :
  s <> EmptyString -> or_else (Some s) fallback = s.
Proof.
  intros Hs. unfold or_else.
  apply String.eqb_neq in Hs. now rewrite Hs.
Qed.

Lemma generateLuxuryWish_text (generateContent : string -> Generated)
    (recipient : string) :
  exists text : string,
    generateLuxuryWish generateContent recipient = Fulfilled text
    /\ text <> EmptyString.
Proof.
  unfold generateLuxuryWish.
  destruct (generateContent (prompt recipient)) as [text |].
  - eexists. split; [reflexivity |]. now apply or_else_nonempty.
  - eexists. split; [reflexivity | discriminate].
Qed.



(** X25: the morph button flips the morph state and nothing else:
    pressing it twice restores the configuration, it swaps the target of
    the progress value between 0 and 1, and it commutes with both
    sliders, which keep the morph state. *)
Theorem toggle_morph_flips (config : TreeConfig.t) (value : R) :
  Overlay.toggleMorph (Overlay.toggleMorph config) = config
  /\ targetProgress (TreeConfig.morphState (Overlay.toggleMorph config))
     = 1 - targetProgress (TreeConfig.morphState config)
  /\ TreeConfig.rotationSpeed (Overlay.toggleMorph config)
     = TreeConfig.rotationSpeed config
  /\ TreeConfig.bloomIntensity (Overlay.toggleMorph config)
     = TreeConfig.bloomIntensity config
  /\ TreeConfig.lightsColor (Overlay.toggleMorph config)
     = TreeConfig.lightsColor config
  /\ Overlay.toggleMorph (Overlay.onRotationChange config value)
     = Overlay.onRotationChange (Overlay.toggleMorph config) value
  /\ Overlay.toggleMorph (Overlay.onGlowChange config value)
     = Overlay.onGlowChange (Overlay.toggleMorph config) value.
Proof.
  destruct config as [speed bloom colour [|]];
    unfold Overlay.toggleMorph, Overlay.onRotationChange,
      Overlay.onGlowChange, targetProgress;
    cbn; repeat split; lra.
Qed.

(** * Properties of the foliage vertex shader *)

Lemma easeOutCubic_defined (p : R) :
  p <= 1 ->
  FoliageShader.easeOutCubic p = Some (1 - (1 - p) * (1 - p) * (1 - p)).
Proof.
  intros Hp. unfold FoliageShader.easeOutCubic, FoliageShader.pow.
  destruct (Rlt_dec (1.0 - p) 0) as [Hneg | _]; [lra |].
  destruct (Rlt_dec 0 (1.0 - p)) as [Hpos | Hzero].
  - cbn [option_map]. f_equal.
    replace 3.0 with (INR 3) by (simpl; lra).
    rewrite Rpower_pow by exact Hpos. simpl. lra.
  - destruct (Rle_dec 3.0 0) as [Habs | _]; [lra |].
    cbn [option_map]. f_equal. replace p with 1 by lra. lra.
Qed.

Lemma easeOutCubic_undefined (p : R) :
  1 < p -> FoliageShader.easeOutCubic p = None.
Proof.
  intros Hp. unfold FoliageShader.easeOutCubic, FoliageShader.pow.
  destruct (Rlt_dec (1.0 - p) 0) as [_ | Hnot]; [reflexivity | lra].
Qed.

(** X26: for a progress value [p] of at most 1 the shader's blend factor
    is [1 - (1 - p)^3]; on [[0, 1]] it lies between [p] and 1 and never
    decreases as [p] grows; for a progress value above 1, which one frame
    of more than half a second toward the tree can produce, the cube is
    taken of a negative base and GLSL leaves the factor undefined. *)
Theorem shader_blend_factor :
  (forall p : R,
      p <= 1 ->
      FoliageShader.easeOutCubic p = Some (1 - (1 - p) * (1 - p) * (1 - p)))
  /\ (forall p : R,
        0 <= p <= 1 -> p <= 1 - (1 - p) * (1 - p) * (1 - p) <= 1)
  /\ (forall p q : R,
        p <= q ->
        1 - (1 - p) * (1 - p) * (1 - p) <= 1 - (1 - q) * (1 - q) * (1 - q))
  /\ (forall p : R, 1 < p -> FoliageShader.easeOutCubic p = None)
  /\ (forall (s : Store.t) (f : Frame.t),
        Store.progress s = 0 ->
        TreeConfig.morphState (Frame.config f) = TREE_SHAPE ->
        1 / 2 < Frame.delta f ->
        FoliageShader.easeOutCubic (Store.progress (useFrame f s)) = None).
Proof.
  split; [exact easeOutCubic_defined |]. split.
  - intros p [Hlo Hhi].
    assert (0 <= (1 - p) * (1 - p) <= 1) by nra.
    assert (0 <= (1 - p) * (1 - p) * (1 - p)) by nra.
    split; nra.
  - split.
    + intros p q Hpq. pose proof (cube_le (1 - q) (1 - p) ltac:(lra)). lra.
    + split; [exact easeOutCubic_undefined |].
      intros s f Hstart Hflag Hdelta. apply easeOutCubic_undefined.
      rewrite useFrame_progress, Hstart, Hflag.
      unfold MathUtils.lerp, targetProgress. cbn. lra.
Qed.

(** X27: for a progress value in [[0, 1]] the vertex stage is defined; the
    point's alpha lies in [[0.2, 1]] and its size factor in [[0.5, 1]]; at
    progress 1 the point is drawn at full size at its tree position moved
    along the normal by a breath of at most 0.03, and at progress 0 at half
    size at its scatter position moved by a jitter of at most 0.1 along x
    and y. *)
Theorem vertex_stage_bounds (uTime uProgress : R) (v : FoliageShader.Vertex) :
  0 <= uProgress <= 1 ->
  exists out : FoliageShader.Varyings,
    FoliageShader.vertex uTime uProgress v = Some out
    /\ 0.2 <= FoliageShader.vAlpha out <= 1
    /\ 0.5 <= FoliageShader.sizeScale out <= 1
    /\ (uProgress = 1 ->
        FoliageShader.sizeScale out = 1
        /\ exists breath : R,
             Rabs breath <= 0.03
             /\ FoliageShader.vPos out
                = Vector3.mk
                    (Vector3.x (FoliageShader.aTargetPos v)
                     + Vector3.x (FoliageShader.normal v) * breath)
                    (Vector3.y (FoliageShader.aTargetPos v)
                     + Vector3.y (FoliageShader.normal v) * breath)
                    (Vector3.z (FoliageShader.aTargetPos v)
                     + Vector3.z (FoliageShader.normal v) * breath))
    /\ (uProgress = 0 ->
        FoliageShader.sizeScale out = 0.5
        /\ exists jitter : R,
             Rabs jitter <= 0.1
             /\ FoliageShader.vPos out
                = Vector3.mk
                    (Vector3.x (FoliageShader.position v) + jitter)
                    (Vector3.y (FoliageShader.position v) + jitter)
                    (Vector3.z (FoliageShader.position v))).
Proof.
  intros [Hlo Hhi]. unfold FoliageShader.vertex.
  rewrite easeOutCubic_defined by exact Hhi. cbv zeta.
  set (t := 1 - (1 - uProgress) * (1 - uProgress) * (1 - uProgress)).
  assert (Ht : 0 <= t <= 1).
  { subst t. assert (0 <= (1 - uProgress) * (1 - uProgress) <= 1) by nra.
    split; nra. }
  eexists. split; [reflexivity |].
  cbn [FoliageShader.vAlpha FoliageShader.sizeScale FoliageShader.vPos].
  pose proof (SIN_bound (uTime * 1.5 + FoliageShader.aRandom v * 20.0)).
  split; [lra |]. split; [lra |]. split.
  - intros Hone. assert (Ht1 : t = 1) by (subst t; rewrite Hone; lra).
    rewrite Ht1. split; [lra |].
    exists (sin (uTime * 2.0 + FoliageShader.aRandom v * 10.0) * 0.03 * 1).
    split.
    + pose proof (float_offset_bound
                    (uTime * 2.0 + FoliageShader.aRandom v * 10.0) 0.03 1
                    ltac:(lra) ltac:(lra)).
      lra.
    + unfold FoliageShader.mix. cbn [Vector3.x Vector3.y Vector3.z].
      replace (1.0 - 1) with 0 by lra. f_equal; ring.
  - intros Hzero. assert (Ht0 : t = 0) by (subst t; rewrite Hzero; lra).
    rewrite Ht0. split; [lra |].
    exists (sin (uTime + FoliageShader.aRandom v * 50.0) * 0.1 * (1.0 - 0)).
    split.
    + pose proof (float_offset_bound
                    (uTime + FoliageShader.aRandom v * 50.0) 0.1 (1.0 - 0)
                    ltac:(lra) ltac:(lra)).
      lra.
    + unfold FoliageShader.mix. cbn [Vector3.x Vector3.y Vector3.z].
      f_equal; ring.
Qed.

Lemma vertex_stage_bounds_witness :
  exists out : FoliageShader.Varyings,
    FoliageShader.vertex 3 1 demo_vertex = Some out
    /\ 0.2 <= FoliageShader.vAlpha out <= 1
    /\ 0.5 <= FoliageShader.sizeScale out <= 1
    /\ (1 = 1 ->
        FoliageShader.sizeScale out = 1
        /\ exists breath : R,
             Rabs breath <= 0.03
             /\ FoliageShader.vPos out
                = Vector3.mk
                    (Vector3.x (FoliageShader.aTargetPos demo_vertex)
                     + Vector3.x (FoliageShader.normal demo_vertex) * breath)
                    (Vector3.y (FoliageShader.aTargetPos demo_vertex)
                     + Vector3.y (FoliageShader.normal demo_vertex) * breath)
                    (Vector3.z (FoliageShader.aTargetPos demo_vertex)
                     + Vector3.z (FoliageShader.normal demo_vertex) * breath))
    /\ (1 = 0 ->
        FoliageShader.sizeScale out = 0.5
        /\ exists jitter : R,
             Rabs jitter <= 0.1
             /\ FoliageShader.vPos out
                = Vector3.mk
                    (Vector3.x (FoliageShader.position demo_vertex) + jitter)
                    (Vector3.y (FoliageShader.position demo_vertex) + jitter)
                    (Vector3.z (FoliageShader.position demo_vertex))).
Proof.
  apply (vertex_stage_bounds 3 1 demo_vertex). lra.
Defined.
